(** * Event follow-up messaging: the message rule engine and its dispatchers

    A shallow embedding of [personalized_messaging.py] and
    [automation_bonus.py].

    - A Python [str] is a list of Unicode code points ([list N]).
    - A cell of a pandas row is a [value]: a string, a boolean, the float
      [nan] that pandas uses for a missing cell, or [None].
    - A row ([row['name']], [row['Job Title']], ...) is a finite map from
      column names to values; a missing column raises [KeyError].
    - Python exceptions are an explicit [Raise] result.
    - [self.df] and [self.messages] are threaded as explicit state.
    - The SMTP server is an arbitrary transition system on a world type. *)

From Stdlib Require Import NArith String Ascii List DecimalString DecimalNat.
From stdpp Require Import gmap strings list fin_maps.

Local Open Scope N_scope.
Local Open Scope list_scope.

(** ** Python strings *)

Abbreviation pystr := (list N).

(** A literal of the source, written in ASCII: one code point per character. *)
Definition lit (s : string) : pystr :=
  map N_of_ascii (list_ascii_of_string s).

(** [str.isspace] on one code point, the set that [str.split()] and
    [str.strip()] without arguments treat as separators. *)
Definition isspace (c : N) : bool :=
  ((9 <=? c) && (c <=? 13)) || ((28 <=? c) && (c <=? 32))
  || (c =? 133) || (c =? 160) || (c =? 5760)
  || ((8192 <=? c) && (c <=? 8202))
  || (c =? 8232) || (c =? 8233) || (c =? 8239) || (c =? 8287) || (c =? 12288).

(** [str.lower] on the ASCII range; code points outside it are kept (the
    Unicode case table is not part of the model). *)
Definition lower_cp (c : N) : N :=
  if (65 <=? c) && (c <=? 90) then c + 32 else c.

Definition lower (s : pystr) : pystr := map lower_cp s.

(** [str.split()]: the maximal runs of non-space code points, in order.
    [cur] is the token being read, most recent code point first. *)
Fixpoint split_from (cur : pystr) (s : pystr) : list pystr :=
  match s with
  | [] => match cur with [] => [] | _ :: _ => [rev cur] end
  | c :: s' =>
      if isspace c
      then match cur with
           | [] => split_from [] s'
           | _ :: _ => rev cur :: split_from [] s'
           end
      else split_from (c :: cur) s'
  end.

Definition split (s : pystr) : list pystr := split_from [] s.

Fixpoint lstrip (s : pystr) : pystr :=
  match s with
  | [] => []
  | c :: s' => if isspace c then lstrip s' else s
  end.

Definition rstrip (s : pystr) : pystr := rev (lstrip (rev s)).

(** [str.strip()] *)
Definition strip (s : pystr) : pystr := rstrip (lstrip s).

Definition str_eqb (a b : pystr) : bool := bool_decide (a = b).

(** ** Python values and exceptions *)

Inductive value : Type :=
  | VStr (s : pystr)
  | VBool (b : bool)
  | VNaN
  | VNone.

Inductive exn : Type :=
  | KeyError (k : string)
  | AttributeError
  | IndexError
  | ZeroDivisionError
  | SMTPException.

Inductive result (A : Type) : Type :=
  | Ok (a : A)
  | Raise (e : exn).
Arguments Ok {A} a.
Arguments Raise {A} e.

Definition bind {A B} (r : result A) (k : A -> result B) : result B :=
  match r with
  | Ok a => k a
  | Raise e => Raise e
  end.

Notation "x <- r ;; k" := (bind r (fun x => k))
  (at level 100, r at next level, right associativity).

(** Truth value of an object in an [if]. *)
Definition truthy (v : value) : bool :=
  match v with
  | VStr s => match s with [] => false | _ :: _ => true end
  | VBool b => b
  | VNaN => true
  | VNone => false
  end.

(** [pd.notna] on a scalar. *)
Definition notna (v : value) : bool :=
  match v with
  | VNaN | VNone => false
  | VStr _ | VBool _ => true
  end.

(** Method calls: only [str] has [split], [strip] and [lower]. *)
Definition py_split (v : value) : result (list pystr) :=
  match v with
  | VStr s => Ok (split s)
  | _ => Raise AttributeError
  end.

Definition py_strip (v : value) : result pystr :=
  match v with
  | VStr s => Ok (strip s)
  | _ => Raise AttributeError
  end.

(** [l[0]] *)
Definition index0 {A} (l : list A) : result A :=
  match l with
  | [] => Raise IndexError
  | x :: _ => Ok x
  end.

(** ** Rows *)

Abbreviation Row := (gmap string value).

(** [row[k]] *)
Definition getitem (row : Row) (k : string) : result value :=
  match row !! k with
  | Some v => Ok v
  | None => Raise (KeyError k)
  end.

(** ** The message rule engine ([PersonalizedMessenger]) *)

Definition py_lower (v : value) : result pystr :=
  match v with
  | VStr s => Ok (lower s)
  | _ => Raise AttributeError
  end.

(** [str(v)], as an f-string formats a replacement field. *)
Definition py_str (v : value) : pystr :=
  match v with
  | VStr s => s
  | VBool true => lit "True"
  | VBool false => lit "False"
  | VNaN => lit "nan"
  | VNone => lit "None"
  end.

(** The party-popper emoji U+1F389 that opens the two "joined" templates. *)
Definition PARTY : pystr := [127881].

(** The four f-strings of lines 26, 28, 32 and 34. *)
Definition msg_joined_title (name title : pystr) : pystr :=
  PARTY ++ lit " Hey " ++ name
  ++ lit ", thanks for joining our session! As a " ++ title
  ++ lit ", we think you'll love our upcoming AI workflow tools. Want early access?".

Definition msg_joined_generic (name : pystr) : pystr :=
  PARTY ++ lit " Hey " ++ name
  ++ lit ", thanks for joining our session! We're excited to have had you participate and would love to keep you updated on our upcoming events and tools!".

Definition msg_missed_title (name title : pystr) : pystr :=
  lit "Hi " ++ name
  ++ lit ", sorry we missed you at the last event! We're preparing another session that might better suit your interests as a " ++ title
  ++ lit ". Hope to see you next time!".

Definition msg_missed_generic (name : pystr) : pystr :=
  lit "Hi " ++ name
  ++ lit ", sorry we missed you at the last event! We're preparing another session with exciting content that we think you'll find valuable. Hope to see you next time!".

(** The sentence of line 38. *)
Definition LINKEDIN_PS : pystr :=
  lit " P.S. We'd love to connect with you on LinkedIn to keep you updated on future opportunities!".

(** Line 17: [row['name'].split()[0] if row['name'] else "there"]. *)
Definition name_expr (row : Row) : result pystr :=
  c <- getitem row "name";;
  if truthy c
  then (v <- getitem row "name";; toks <- py_split v;; index0 toks)
  else Ok (lit "there").

(** Line 18: [row['Job Title'] if pd.notna(row['Job Title']) and
    row['Job Title'].strip() else None]. *)
Definition job_title_expr (row : Row) : result value :=
  c <- getitem row "Job Title";;
  if notna c
  then (v <- getitem row "Job Title";;
        s <- py_strip v;;
        if truthy (VStr s) then getitem row "Job Title" else Ok VNone)
  else Ok VNone.

(** Lines 25 and 31: [job_title and job_title.lower() != 'unemployed']. *)
Definition title_cond (job_title : value) : result bool :=
  if truthy job_title
  then (l <- py_lower job_title;; Ok (negb (str_eqb l (lit "unemployed"))))
  else Ok false.

(** Lines 23-34: the value of [message] after the nested conditionals. *)
Definition base_message (name : pystr) (job_title has_joined : value)
  : result pystr :=
  if truthy has_joined
  then (c <- title_cond job_title;;
        if c
        then (l <- py_lower job_title;; Ok (msg_joined_title name l))
        else Ok (msg_joined_generic name))
  else (c <- title_cond job_title;;
        if c
        then Ok (msg_missed_title name (py_str job_title))
        else Ok (msg_missed_generic name)).

Definition generate_personalized_message (row : Row) : result pystr :=
  name <- name_expr row;;
  job_title <- job_title_expr row;;
  has_joined <- getitem row "has_joined_event";;
  flag <- getitem row "linkedin_flag";;
  let has_linkedin := negb (truthy flag) in
  message <- base_message name job_title has_joined;;
  if negb has_linkedin
  then Ok (message ++ LINKEDIN_PS)
  else Ok message.

(** ** Messenger state *)

(** The dict appended to [self.messages] at lines 48-54. *)
Record MessageRecord : Type := {
  m_email : value;
  m_name : value;
  m_message : pystr;
  m_has_joined_event : value;
  m_job_title : value
}.

Record Messenger : Type := {
  df : list Row;
  messages : list MessageRecord
}.

(** Stateful code that may raise: the state reached is kept when it does. *)
Definition ST (S A : Type) : Type := S -> S * result A.

Definition mret {S A} (a : A) : ST S A := fun s => (s, Ok a).

Definition mbind {S A B} (m : ST S A) (k : A -> ST S B) : ST S B :=
  fun s =>
    match m s with
    | (s', Ok a) => k a s'
    | (s', Raise e) => (s', Raise e)
    end.

Notation "x <~ m ;; k" := (mbind m (fun x => k))
  (at level 100, m at next level, right associativity).

Definition liftR {S A} (r : result A) : ST S A := fun s => (s, r).

(** [try: m  except Exception as e: h e] *)
Definition try_ {S A} (m : ST S A) (h : exn -> ST S A) : ST S A :=
  fun s =>
    match m s with
    | (s', Ok a) => (s', Ok a)
    | (s', Raise e) => h e s'
    end.

(** Methods of [PersonalizedMessenger] run on [self]. *)
Abbreviation M := (ST Messenger).

Definition set_messages (l : list MessageRecord) : M unit :=
  fun self => ({| df := df self; messages := l |}, Ok tt).

Definition append_message (r : MessageRecord) : M unit :=
  fun self => ({| df := df self; messages := messages self ++ [r] |}, Ok tt).

Definition get_df : M (list Row) := fun self => (self, Ok (df self)).
Definition get_messages : M (list MessageRecord) :=
  fun self => (self, Ok (messages self)).

(** The method call [self.generate_personalized_message(row)]. *)
Definition call_generate (row : Row) : M pystr :=
  liftR (generate_personalized_message row).

(** The body of the loop of lines 46-54, for the rows still to visit. *)
Fixpoint generate_loop (rows : list Row) : M unit :=
  match rows with
  | [] => mret tt
  | row :: rest =>
      message <~ call_generate row;;
      email <~ liftR (getitem row "email");;
      name <~ liftR (getitem row "name");;
      joined <~ liftR (getitem row "has_joined_event");;
      title <~ liftR (getitem row "Job Title");;
      _ <~ append_message {| m_email := email; m_name := name;
                             m_message := message;
                             m_has_joined_event := joined;
                             m_job_title := title |};;
      generate_loop rest
  end.

Definition generate_all_messages : M (list MessageRecord) :=
  _ <~ set_messages [];;
  rows <~ get_df;;
  _ <~ generate_loop rows;;
  get_messages.

(** ** Reading the job-title cell *)

(** The job-title cell counts as absent: null, blank, or the sentinel in
    any letter case. The cell is compared as stored, not trimmed. *)
Definition title_absent (cell : value) : bool :=
  match cell with
  | VStr s => forallb isspace s || str_eqb (lower s) (lit "unemployed")
  | _ => true
  end.

Definition is_str (v : value) : bool :=
  match v with VStr _ => true | _ => false end.

Definition is_bool (v : value) : bool :=
  match v with VBool _ => true | _ => false end.

(** ** Sample contacts *)

Definition mk_row (email name title joined flag : value) : Row :=
  <["email" := email]> (<["name" := name]> (<["Job Title" := title]>
  (<["has_joined_event" := joined]> (<["linkedin_flag" := flag]> ∅)))).

Definition sam : Row :=
  mk_row (VStr (lit "sam@example.com")) (VStr (lit "Sam Lee"))
         (VStr (lit "Engineer")) (VBool true) (VBool false).

Definition ana : Row :=
  mk_row (VStr (lit "ana@example.com")) (VStr (lit "Ana"))
         VNone (VBool false) (VBool false).

Definition jane : Row :=
  mk_row (VStr (lit "jane@example.com")) (VStr (lit "Jane Doe"))
         (VStr (lit "Data Analyst")) (VBool false) (VBool true).

(** A name cell of three spaces, as [read_csv] keeps it. *)
Definition blank_name : Row :=
  mk_row (VStr (lit "kim@example.com")) (VStr (lit "   "))
         (VStr (lit "Engineer")) (VBool true) (VBool false).

(** An empty name cell, which [read_csv] loads as [nan]. *)
Definition nan_name : Row :=
  mk_row (VStr (lit "lee@example.com")) VNaN
         (VStr (lit "Engineer")) (VBool true) (VBool false).

(** A title that equals the sentinel only once trimmed. *)
Definition padded_unemployed : Row :=
  mk_row (VStr (lit "pat@example.com")) (VStr (lit "Pat"))
         (VStr (lit " unemployed")) (VBool true) (VBool false).

(** The last three code points, most recent first. *)
Definition last3 (l : pystr) : pystr := take 3 (rev l).

(** [rec] is the dict that the loop of [generate_all_messages] appends for
    [row]. *)
Definition record_for (row : Row) (rec : MessageRecord) : Prop :=
  generate_personalized_message row = Ok (m_message rec)
  /\ row !! "email" = Some (m_email rec)
  /\ row !! "name" = Some (m_name rec)
  /\ row !! "has_joined_event" = Some (m_has_joined_event rec)
  /\ row !! "Job Title" = Some (m_job_title rec).

(** ** Telegram batch ([PersonalizedMessenger.create_telegram_batch]) *)

Record TelegramItem : Type := {
  t_recipient_email : value;
  t_recipient_name : value;
  t_message_text : pystr;
  t_priority : pystr;
  t_tags : list pystr
}.

(** The dict that is dumped to the batch file; [created_at] is the clock
    and is left out. *)
Record TelegramBatch : Type := {
  tb_bot_name : pystr;
  tb_total_messages : nat;
  tb_messages : list TelegramItem
}.

(** Lines 175-181. *)
Definition telegram_item (msg : MessageRecord) : TelegramItem :=
  {| t_recipient_email := m_email msg;
     t_recipient_name := m_name msg;
     t_message_text := m_message msg;
     t_priority := if truthy (m_has_joined_event msg)
                   then lit "high" else lit "normal";
     t_tags := [lit "event_followup"; lit "automated"] |}.

(** [if not self.messages: self.generate_all_messages()] *)
Definition ensure_messages : M unit :=
  msgs <~ get_messages;;
  match msgs with
  | [] => (_ <~ generate_all_messages;; mret tt)
  | _ :: _ => mret tt
  end.

Definition create_telegram_batch : M TelegramBatch :=
  _ <~ ensure_messages;;
  msgs <~ get_messages;;
  mret {| tb_bot_name := lit "EventFollowUpBot";
          tb_total_messages := length msgs;
          tb_messages := map telegram_item msgs |}.

(** ** Message queue ([TelegramAutomation.create_message_queue]) *)

(** A record of [personalized_messages.csv] as [load_messages] keeps it:
    the columns that [save_messages_csv] writes. *)
Record LoadedMessage : Type := {
  lm_email : value;
  lm_message : value
}.

Record Automation : Type := {
  a_df : list Row;
  a_messages : list LoadedMessage
}.

Record QueueItem : Type := {
  q_id : pystr;
  q_recipient_email : value;
  q_message_text : value;
  q_priority : pystr;
  q_scheduled_delay_minutes : N;
  q_tags : list pystr;
  q_retry_count : N;
  q_max_retries : N;
  q_status : pystr
}.

(** The dict that is dumped to the queue file; [created_at] is the clock
    and is left out. *)
Record Queue : Type := {
  bot_token : pystr;
  bot_name : pystr;
  total_messages : nat;
  estimated_send_time : pystr;
  queue_messages : list QueueItem
}.

(** [df[k]]: the column, or [KeyError]. *)
Fixpoint column (rows : list Row) (k : string) : result (list value) :=
  match rows with
  | [] => Ok []
  | row :: rest =>
      v <- getitem row k;;
      vs <- column rest k;;
      Ok (v :: vs)
  end.

(** Element-wise [==] of a column with a scalar: missing values compare
    unequal to everything. *)
Definition py_eq (a b : value) : bool :=
  match a, b with
  | VStr s, VStr t => str_eqb s t
  | VBool x, VBool y => Bool.eqb x y
  | _, _ => false
  end.

(** [df[mask]] *)
Fixpoint boolean_index (rows : list Row) (mask : list bool) : list Row :=
  match rows, mask with
  | row :: rows', b :: mask' =>
      if b then row :: boolean_index rows' mask'
      else boolean_index rows' mask'
  | _, _ => []
  end.

(** Decimal digits of a number, and [{:03d}]. *)
Definition decimal (n : nat) : pystr :=
  lit (NilEmpty.string_of_uint (Nat.to_uint n)).

Definition zfill3 (s : pystr) : pystr :=
  repeat 48 (3 - length s)%nat ++ s.

(** Lines 198-215: the queue entry of message [i] (counted from 0), given
    the attendance cell of the contact found for it. *)
Definition queue_item (i : nat) (msg : LoadedMessage) (joined : value)
  : QueueItem :=
  let '(priority, delay_minutes) :=
    if truthy joined then (lit "high", 0) else (lit "normal", 30) in
  {| q_id := lit "msg_" ++ zfill3 (decimal (i + 1));
     q_recipient_email := lm_email msg;
     q_message_text := lm_message msg;
     q_priority := priority;
     q_scheduled_delay_minutes := delay_minutes;
     q_tags := [lit "event_followup"; lit "automated"];
     q_retry_count := 0;
     q_max_retries := 3;
     q_status := lit "pending" |}.

(** Lines 194-217, for the messages from position [i] on. *)
Fixpoint queue_items (self : Automation) (i : nat) (msgs : list LoadedMessage)
  : result (list QueueItem) :=
  match msgs with
  | [] => Ok []
  | msg :: rest =>
      emails <- column (a_df self) "email";;
      let mask := map (fun c => py_eq c (lm_email msg)) emails in
      user_data <- index0 (boolean_index (a_df self) mask);;
      joined <- getitem user_data "has_joined_event";;
      items <- queue_items self (S i) rest;;
      Ok (queue_item i msg joined :: items)
  end.

(** [None] stands for the [return False] of an empty message list. *)
Definition create_message_queue (self : Automation) : result (option Queue) :=
  match a_messages self with
  | [] => Ok None
  | _ :: _ =>
      items <- queue_items self 0 (a_messages self);;
      Ok (Some {| bot_token := lit "YOUR_BOT_TOKEN_HERE";
                  bot_name := lit "EventFollowUpBot";
                  total_messages := length (a_messages self);
                  estimated_send_time :=
                    decimal (length (a_messages self) * 2) ++ lit " seconds";
                  queue_messages := items |})
  end.

(** ** Email dispatch *)

(** What the dispatchers print, in order. *)
Inductive event : Type :=
  | ENoMessages
  | EDryRun (n : nat) (batch_size delay : N)
  | EWouldSend (i n : nat) (to : value)
  | EWouldPause (delay : N)
  | ECredentialsRequired
  | EValidationFailed (e : exn)
  | EStarting
  | ESent (i n : nat) (to : value)
  | EPause (delay : N)
  | EFailed (i n : nat) (to : value) (e : exn)
  | EServerError (e : exn)
  | ESummary (successful failed : nat)
  | ETestMode
  | EExample (to : value)
  | EMore (more : Z)
  | ESentTo (to : value)
  | EFailedTo (to : value) (e : exn)
  | EReport (sent total : nat).

(** [a % b] *)
Definition py_mod (a b : N) : result N :=
  if b =? 0 then Raise ZeroDivisionError else Ok (a mod b).

(** [a or b] *)
Definition py_or (a b : value) : value := if truthy a then a else b.

Definition is_sent (e : event) : bool :=
  match e with ESent _ _ _ | ESentTo _ => true | _ => false end.

Definition is_failed (e : event) : bool :=
  match e with EFailed _ _ _ _ | EFailedTo _ _ => true | _ => false end.

Definition is_summary (e : event) : bool :=
  match e with ESummary _ _ | EReport _ _ => true | _ => false end.

(** The recipients of the per-message lines of a log, in order. *)
Fixpoint recipients (log : list event) : list value :=
  match log with
  | [] => []
  | ESent _ _ to :: log' | EFailed _ _ to _ :: log'
  | ESentTo to :: log' | EFailedTo to _ :: log' => to :: recipients log'
  | _ :: log' => recipients log'
  end.

Section Smtp.

(** The mail server and the network behind it: any state, any behaviour. *)
Variable World : Type.

(** [smtplib.SMTP(server, port)], [starttls()] and [login(email, password)]. *)
Variable smtp_login : World -> value -> value -> World * result unit.

(** Building the MIME message for one recipient and [server.sendmail]. *)
Variable smtp_sendmail : World -> value -> value -> value -> World * result unit.

(** [server.quit()] *)
Variable smtp_quit : World -> World * result unit.

(** State of one call: the world, what was printed, and the counters
    ([sent_count] of [send_email_smtp] is [successful_sends]). *)
Record Run : Type := {
  world : World;
  out : list event;
  successful_sends : nat;
  failed_sends : nat
}.

Definition start (w : World) : Run :=
  {| world := w; out := []; successful_sends := 0; failed_sends := 0 |}.

Definition say (e : event) : ST Run unit :=
  fun r => ({| world := world r; out := out r ++ [e];
               successful_sends := successful_sends r;
               failed_sends := failed_sends r |}, Ok tt).

Definition on_world (f : World -> World * result unit) : ST Run unit :=
  fun r => let '(w, res) := f (world r) in
           ({| world := w; out := out r;
               successful_sends := successful_sends r;
               failed_sends := failed_sends r |}, res).

Definition count_success : ST Run unit :=
  fun r => ({| world := world r; out := out r;
               successful_sends := S (successful_sends r);
               failed_sends := failed_sends r |}, Ok tt).

Definition count_failure : ST Run unit :=
  fun r => ({| world := world r; out := out r;
               successful_sends := successful_sends r;
               failed_sends := S (failed_sends r) |}, Ok tt).

Definition get_counts : ST Run (nat * nat) :=
  fun r => (r, Ok (successful_sends r, failed_sends r)).

(** [EmailAutomation.validate_email_setup] *)
Definition validate_email_setup (email password : value) : ST Run bool :=
  try_ (_ <~ on_world (fun w => smtp_login w email password);;
        _ <~ on_world smtp_quit;;
        mret true)
       (fun e => _ <~ say (EValidationFailed e);; mret false).

(** Lines 80-83, for the messages from position [i] on. *)
Fixpoint dry_run_loop (n : nat) (batch_size delay : N) (i : nat)
    (msgs : list LoadedMessage) : ST Run unit :=
  match msgs with
  | [] => mret tt
  | msg :: rest =>
      _ <~ say (EWouldSend (i + 1) n (lm_email msg));;
      m <~ liftR (py_mod (N.of_nat (i + 1)) batch_size);;
      _ <~ (if m =? 0 then say (EWouldPause delay) else mret tt);;
      dry_run_loop n batch_size delay (S i) rest
  end.

(** Lines 105-142: the [try] statement for message [i] (counted from 0). *)
Definition batch_attempt (sender : value) (n : nat) (batch_size delay : N)
    (i : nat) (msg : LoadedMessage) : ST Run unit :=
  try_
    (_ <~ on_world (fun w =>
            smtp_sendmail w sender (lm_email msg) (lm_message msg));;
     _ <~ count_success;;
     _ <~ say (ESent (i + 1) n (lm_email msg));;
     m <~ liftR (py_mod (N.of_nat (i + 1)) batch_size);;
     if (m =? 0) && (i + 1 <? n)%nat
     then say (EPause delay)
     else mret tt)
    (fun e =>
       _ <~ count_failure;;
       say (EFailed (i + 1) n (lm_email msg) e)).

(** Line 104: the loop, for the messages from position [i] on. *)
Fixpoint batch_loop (sender : value) (n : nat) (batch_size delay : N)
    (i : nat) (msgs : list LoadedMessage) : ST Run unit :=
  match msgs with
  | [] => mret tt
  | msg :: rest =>
      _ <~ batch_attempt sender n batch_size delay i msg;;
      batch_loop sender n batch_size delay (S i) rest
  end.

(** [EmailAutomation.send_batch_emails]; [env_email] and [env_password]
    are [GMAIL_EMAIL] and [GMAIL_APP_PASSWORD] of the environment. *)
Definition send_batch_emails (self : Automation)
    (env_email env_password : pystr)
    (sender_email sender_password : value)
    (batch_size delay_seconds : N) (dry_run : bool) : ST Run bool :=
  let n := length (a_messages self) in
  match a_messages self with
  | [] => _ <~ say ENoMessages;; mret false
  | _ :: _ =>
      let sender_email := py_or sender_email (VStr env_email) in
      let sender_password := py_or sender_password (VStr env_password) in
      if dry_run
      then (_ <~ say (EDryRun n batch_size delay_seconds);;
            _ <~ dry_run_loop n batch_size delay_seconds 0 (a_messages self);;
            mret true)
      else if negb (truthy sender_email) || negb (truthy sender_password)
      then (_ <~ say ECredentialsRequired;; mret false)
      else
        valid <~ validate_email_setup sender_email sender_password;;
        if negb valid then mret false
        else
          _ <~ say EStarting;;
          served <~ try_
                      (_ <~ on_world (fun w =>
                              smtp_login w sender_email sender_password);;
                       _ <~ batch_loop sender_email n batch_size
                              delay_seconds 0 (a_messages self);;
                       _ <~ on_world smtp_quit;;
                       mret true)
                      (fun e => _ <~ say (EServerError e);; mret false);;
          if negb served then mret false
          else
            counts <~ get_counts;;
            _ <~ say (ESummary (fst counts) (snd counts));;
            mret (0 <? fst counts)%nat
  end.

(** Lines 137-152 of [send_email_smtp]: the [try] statement for one
    message. *)
Definition smtp_attempt (sender : value) (msg : MessageRecord) : ST Run unit :=
  try_
    (_ <~ on_world (fun w =>
            smtp_sendmail w sender (m_email msg) (VStr (m_message msg)));;
     _ <~ count_success;;
     say (ESentTo (m_email msg)))
    (fun e => say (EFailedTo (m_email msg) e)).

(** Line 136: the loop. *)
Fixpoint smtp_loop (sender : value) (msgs : list MessageRecord) : ST Run unit :=
  match msgs with
  | [] => mret tt
  | msg :: rest => _ <~ smtp_attempt sender msg;; smtp_loop sender rest
  end.

Fixpoint show_examples (msgs : list MessageRecord) : ST Run unit :=
  match msgs with
  | [] => mret tt
  | msg :: rest => _ <~ say (EExample (m_email msg));; show_examples rest
  end.

(** [send_email_smtp] once [self.messages] is filled. *)
Definition smtp_session (msgs : list MessageRecord)
    (sender_email sender_password : value) (test_mode : bool) : ST Run bool :=
  if test_mode
  then (_ <~ say ETestMode;;
        _ <~ show_examples (take 3 msgs);;
        _ <~ say (EMore (Z.of_nat (length msgs) - 3)%Z);;
        mret true)
  else if negb (truthy sender_email) || negb (truthy sender_password)
  then (_ <~ say ECredentialsRequired;; mret false)
  else
    try_ (_ <~ on_world (fun w => smtp_login w sender_email sender_password);;
          _ <~ smtp_loop sender_email msgs;;
          _ <~ on_world smtp_quit;;
          counts <~ get_counts;;
          _ <~ say (EReport (fst counts) (length msgs));;
          mret true)
         (fun e => _ <~ say (EServerError e);; mret false).

(** [PersonalizedMessenger.send_email_smtp] *)
Definition send_email_smtp (sender_email sender_password : value)
    (test_mode : bool) (self : Messenger) (r : Run)
  : Messenger * Run * result bool :=
  match ensure_messages self with
  | (self', Raise e) => (self', r, Raise e)
  | (self', Ok _) =>
      let '(r', res) :=
        smtp_session (messages self') sender_email sender_password
          test_mode r in
      (self', r', res)
  end.

End Smtp.

Arguments world {World} _.
Arguments out {World} _.
Arguments successful_sends {World} _.
Arguments failed_sends {World} _.
Arguments start {World} w.

(** The outcomes of offering each message of a list to the server in turn,
    whatever the earlier outcomes were, and the world this leaves. *)
Fixpoint deliveries {World : Type}
    (sendmail : World -> value -> value -> value -> World * result unit)
    (sender : value) (msgs : list (value * value)) (w : World)
  : list (result unit) * World :=
  match msgs with
  | [] => ([], w)
  | (to, body) :: rest =>
      let '(w1, o) := sendmail w sender to body in
      let '(os, w2) := deliveries sendmail sender rest w1 in
      (o :: os, w2)
  end.

Definition is_ok {A} (r : result A) : bool :=
  match r with Ok _ => true | Raise _ => false end.

Definition count_ok (os : list (result unit)) : nat :=
  length (filter (fun o => is_ok o = true) os).

Definition count_raise (os : list (result unit)) : nat :=
  length (filter (fun o => is_ok o = false) os).

Definition loaded_pair (msg : LoadedMessage) : value * value :=
  (lm_email msg, lm_message msg).

Definition record_pair (msg : MessageRecord) : value * value :=
  (m_email msg, VStr (m_message msg)).

(** A server whose state tells whether the connection is up: a login
    brings it up, every [sendmail] fails and drops it, and [quit] raises on
    a dropped connection. *)
Definition login_up (up : bool) (email password : value)
  : bool * result unit := (true, Ok tt).

Definition drop_on_send (up : bool) (sender to body : value)
  : bool * result unit := (false, Raise SMTPException).

Definition quit_if_up (up : bool) : bool * result unit :=
  (up, if up then Ok tt else Raise SMTPException).

(** A server that is always there. *)
Definition accept_login (w : unit) (email password : value)
  : unit * result unit := (w, Ok tt).

Definition quit_ok (w : unit) : unit * result unit := (w, Ok tt).

(** A server that refuses the recipients whose email is not a string. *)
Definition refuse_missing (w : unit) (sender to body : value)
  : unit * result unit :=
  (w, if is_str to then Ok tt else Raise SMTPException).

Definition three_loaded : Automation :=
  {| a_df := [sam; ana];
     a_messages := [ {| lm_email := VStr (lit "sam@example.com");
                        lm_message := VStr (lit "to Sam") |};
                     {| lm_email := VNaN;
                        lm_message := VStr (lit "to nobody") |};
                     {| lm_email := VStr (lit "ana@example.com");
                        lm_message := VStr (lit "to Ana") |} ] |}.


(** The entries for messages paired with attendance cells, from position
    [i] on. *)
Fixpoint items_for (i : nat) (msgs : list LoadedMessage) (joins : list value)
  : list QueueItem :=
  match msgs, joins with
  | msg :: msgs', j :: joins' => queue_item i msg j :: items_for (S i) msgs' joins'
  | _, _ => []
  end.

(** Two contacts that share an email, and the two messages made for them. *)
Definition twins : Automation :=
  {| a_df := [ mk_row (VStr (lit "dup@example.com")) (VStr (lit "Al"))
                 VNone (VBool true) (VBool false);
               mk_row (VStr (lit "dup@example.com")) (VStr (lit "Bo"))
                 VNone (VBool false) (VBool false) ];
     a_messages := [ {| lm_email := VStr (lit "dup@example.com");
                        lm_message := VStr (lit "to Al") |};
                     {| lm_email := VStr (lit "dup@example.com");
                        lm_message := VStr (lit "to Bo") |} ] |}.

(** The contacts [sam] and [ana] with their loaded messages. *)
Definition sam_and_ana : Automation :=
  {| a_df := [sam; ana];
     a_messages := [ {| lm_email := VStr (lit "sam@example.com");
                        lm_message := VStr (lit "to Sam") |};
                     {| lm_email := VStr (lit "ana@example.com");
                        lm_message := VStr (lit "to Ana") |} ] |}.

(** ** Further sample contacts *)

(** A contact whose attendance cell is set and whose title is in capitals. *)
Definition lou : Row :=
  mk_row (VStr (lit "lou@example.com")) (VStr (lit "  Lou Reed"))
         (VStr (lit "ENGINEER")) (VBool true) (VBool false).

(** A row without an ["email"] column. *)
Definition no_email : Row :=
  <["name" := VStr (lit "Max")]> (<["Job Title" := VNone]>
  (<["has_joined_event" := VBool false]> (<["linkedin_flag" := VBool false]> ∅))).

(** ** The loop of [generate_all_messages], row by row *)

(** Lines 47-54 for one row: the message, then the dict with its four
    cells read in the order of the dict literal. *)
Definition record_of (row : Row) : result MessageRecord :=
  message <- generate_personalized_message row;;
  email <- getitem row "email";;
  name <- getitem row "name";;
  joined <- getitem row "has_joined_event";;
  title <- getitem row "Job Title";;
  Ok {| m_email := email; m_name := name; m_message := message;
        m_has_joined_event := joined; m_job_title := title |}.

(** The records appended before the loop ends or raises, and how it ends. *)
Fixpoint run_records (rows : list Row) : list MessageRecord * result unit :=
  match rows with
  | [] => ([], Ok tt)
  | row :: rest =>
      match record_of row with
      | Ok rec => (rec :: fst (run_records rest), snd (run_records rest))
      | Raise e => ([], Raise e)
      end
  end.

(** ** [PersonalizedMessenger.save_messages_csv] *)

(** Line 65: the two columns kept of a record. *)
Definition csv_record (msg : MessageRecord) : LoadedMessage :=
  {| lm_email := m_email msg; lm_message := VStr (m_message msg) |}.

(** The table handed to [to_csv]; writing the file is outside the model. *)
Definition save_messages_csv : M (list LoadedMessage) :=
  _ <~ ensure_messages;;
  msgs <~ get_messages;;
  mret (map csv_record msgs).

(** ** Looking a contact up by email *)

(** The first row of the frame whose email cell equals [email] under
    [py_eq]. *)
Definition contact_of (rows : list Row) (email : value) : option Row :=
  List.find (fun row => match row !! "email" with
                        | Some v => py_eq v email
                        | None => false
                        end) rows.


(** ** The two groups of [TelegramAutomation.simulate_telegram_sending] *)

(** [xs[mask]] on a column. *)
Fixpoint mask_select (xs : list value) (mask : list bool) : list value :=
  match xs, mask with
  | x :: xs', b :: mask' =>
      if b then x :: mask_select xs' mask' else mask_select xs' mask'
  | _, _ => []
  end.

(** [self.df[self.df['email'] == msg['email']]['has_joined_event'].iloc[0]];
    the filtered frame has the column when every row of the frame has it. *)
Definition joined_of (self : Automation) (msg : LoadedMessage) : result value :=
  emails <- column (a_df self) "email";;
  let mask := map (fun c => py_eq c (lm_email msg)) emails in
  col <- column (a_df self) "has_joined_event";;
  index0 (mask_select col mask).

(** The comprehensions of lines 239 and 240: the messages whose contact's
    attendance is truthy ([want = true]) or falsy ([want = false]). *)
Fixpoint select_by (self : Automation) (want : bool)
    (msgs : list LoadedMessage) : result (list LoadedMessage) :=
  match msgs with
  | [] => Ok []
  | msg :: rest =>
      j <- joined_of self msg;;
      tl <- select_by self want rest;;
      Ok (if Bool.eqb (truthy j) want then msg :: tl else tl)
  end.

(** Lines 231-240 of [simulate_telegram_sending]: the guard and the two
    groups, [None] for the [return False] of an empty message list. The
    printing loops that follow are not part of the model. *)
Definition simulate_telegram_groups (self : Automation)
  : result (option (list LoadedMessage * list LoadedMessage)) :=
  match a_messages self with
  | [] => Ok None
  | _ :: _ =>
      high_priority <- select_by self true (a_messages self);;
      normal_priority <- select_by self false (a_messages self);;
      Ok (Some (high_priority, normal_priority))
  end.

(** A message for an email that no contact has. *)
Definition with_stranger : Automation :=
  {| a_df := [sam; ana];
     a_messages := [ {| lm_email := VStr (lit "sam@example.com");
                        lm_message := VStr (lit "to Sam") |};
                     {| lm_email := VStr (lit "zoe@example.com");
                        lm_message := VStr (lit "to Zoe") |} ] |}.

(** ** Reading a dry-run log *)


(** The recipients of the "would send" lines of a log, in order. *)
Fixpoint would_recipients (log : list event) : list value :=
  match log with
  | [] => []
  | EWouldSend _ _ to :: log' => to :: would_recipients log'
  | _ :: log' => would_recipients log'
  end.

(** A server that refuses every login. *)
Definition login_refused (w : unit) (email password : value)
  : unit * result unit := (w, Raise SMTPException).

(** A server that accepts every message. *)
Definition accept_all (w : unit) (sender to body : value)
  : unit * result unit := (w, Ok tt).


(** * Properties *)

(** ** Strings *)

Section StringFacts.

Implicit Types (s t cur : pystr) (c : N).

Lemma split_from_nil cur s :
  split_from cur s = [] <-> cur = [] /\ forallb isspace s = true.
Proof.
  revert cur. induction s as [|c s IH]; intros cur; simpl.
  - destruct cur; split; [done | done | done | by intros [? _]].
  - destruct (isspace c) eqn:Hc; simpl.
    + destruct cur.
      * apply IH.
      * split; [done | by intros [? _]].
    + rewrite IH. split; intros [? ?]; done.
Qed.

Lemma split_nil s : split s = [] <-> forallb isspace s = true.
Proof.
  unfold split. rewrite split_from_nil.
  split; [by intros [_ ?] | done].
Qed.

Lemma split_from_spaces s rest :
  forallb isspace s = true -> split_from [] (s ++ rest) = split_from [] rest.
Proof.
  induction s as [|c s IH]; simpl; [done|].
  intros [Hc Hs]%andb_prop. rewrite Hc. by apply IH.
Qed.

Lemma split_from_token t cur rest :
  forallb (fun c => negb (isspace c)) t = true ->
  split_from cur (t ++ rest) = split_from (rev t ++ cur) rest.
Proof.
  revert cur. induction t as [|c t IH]; intros cur; simpl; [done|].
  intros [Hc Ht]%andb_prop. apply negb_true_iff in Hc. rewrite Hc.
  rewrite IH by done. simpl. by rewrite <- app_assoc.
Qed.

Lemma split_from_end cur : cur <> [] -> split_from cur [] = [rev cur].
Proof. by destruct cur. Qed.

Lemma split_from_space cur c s :
  cur <> [] -> isspace c = true ->
  split_from cur (c :: s) = rev cur :: split_from [] s.
Proof. intros Hne Hc. simpl. rewrite Hc. by destruct cur. Qed.

(** The head of [s.split()] is the first whitespace-delimited token of
    [s]: leading spaces are skipped, and the token runs up to the next
    space or to the end of the string. *)
Lemma split_first_token ws t rest :
  forallb isspace ws = true ->
  t <> [] ->
  forallb (fun c => negb (isspace c)) t = true ->
  (rest = [] \/ exists c r, rest = c :: r /\ isspace c = true) ->
  head (split (ws ++ t ++ rest)) = Some t.
Proof.
  intros Hws Hne Ht Hrest. unfold split.
  rewrite split_from_spaces by done.
  rewrite split_from_token by done. rewrite app_nil_r.
  assert (Hrev : rev t <> []).
  { intros E. apply Hne. by rewrite <- (rev_involutive t), E. }
  destruct Hrest as [-> | (c & r & -> & Hc)].
  - rewrite split_from_end by done. simpl. by rewrite rev_involutive.
  - rewrite split_from_space by done. simpl. by rewrite rev_involutive.
Qed.

Lemma lstrip_nil s : lstrip s = [] <-> forallb isspace s = true.
Proof.
  induction s as [|c s IH]; simpl; [done|].
  destruct (isspace c); simpl; [apply IH | done].
Qed.

Lemma forallb_rev (f : N -> bool) s : forallb f (rev s) = forallb f s.
Proof.
  induction s as [|c s IH]; simpl; [done|].
  rewrite forallb_app, IH. simpl. rewrite andb_true_r. apply andb_comm.
Qed.

Lemma lstrip_spaces_only s :
  forallb isspace (lstrip s) = true -> forallb isspace s = true.
Proof.
  induction s as [|c s IH]; simpl; [done|].
  destruct (isspace c) eqn:Hc; simpl; [done|]. by rewrite Hc.
Qed.

Lemma strip_nil s : strip s = [] <-> forallb isspace s = true.
Proof.
  unfold strip, rstrip. split.
  - intros H. apply lstrip_spaces_only.
    rewrite <- forallb_rev. apply lstrip_nil.
    by rewrite <- (rev_involutive (lstrip _)), H.
  - intros H. apply lstrip_nil in H. by rewrite H.
Qed.

Lemma lower_unemployed_ascii :
  lower (lit "Unemployed") = lit "unemployed".
Proof. reflexivity. Qed.

End StringFacts.

(** ** The rule engine, step by step *)

Section EngineFacts.

Implicit Types (row : Row) (cell joined flag : value) (name : pystr).

Lemma getitem_lookup row k v : row !! k = Some v -> getitem row k = Ok v.
Proof. intros H. unfold getitem. by rewrite H. Qed.

Lemma truthy_strip s :
  truthy (VStr (strip s)) = negb (forallb isspace s).
Proof.
  destruct (forallb isspace s) eqn:E; simpl.
  - apply strip_nil in E. by rewrite E.
  - destruct (strip s) eqn:Hs; [|done].
    apply strip_nil in Hs. congruence.
Qed.

(** Line 18 on a cell that is a string or missing. *)
Lemma job_title_expr_cell row cell :
  row !! "Job Title" = Some cell ->
  job_title_expr row =
    match cell with
    | VStr s => if forallb isspace s then Ok VNone else Ok (VStr s)
    | VBool _ => Raise AttributeError
    | VNaN | VNone => Ok VNone
    end.
Proof.
  intros H. unfold job_title_expr. rewrite (getitem_lookup _ _ _ H).
  destruct cell as [s| | |]; cbn [bind notna py_strip]; try done.
  rewrite truthy_strip. by destruct (forallb isspace s).
Qed.

Lemma forallb_isspace_nonempty s :
  forallb isspace s = false -> truthy (VStr s) = true.
Proof. by destruct s. Qed.

(** Lines 18 and 25/31 together decide whether the title is used. *)
Lemma title_cond_cell row cell :
  row !! "Job Title" = Some cell ->
  is_bool cell = false ->
  exists jt, job_title_expr row = Ok jt
    /\ title_cond jt = Ok (negb (title_absent cell))
    /\ (title_absent cell = false -> jt = cell).
Proof.
  intros H Hb. rewrite (job_title_expr_cell _ _ H).
  destruct cell as [s| | |]; simpl in *; try done;
    try (by eexists; split_and!; [done..|done]).
  destruct (forallb isspace s) eqn:E; simpl.
  - eexists; split_and!; done.
  - eexists; split_and!; [done | | done].
    unfold title_cond. by rewrite forallb_isspace_nonempty.
Qed.

Lemma name_expr_cell row cell :
  row !! "name" = Some cell ->
  name_expr row =
    if truthy cell then (toks <- py_split cell;; index0 toks)
    else Ok (lit "there").
Proof.
  intros H. unfold name_expr. by rewrite (getitem_lookup _ _ _ H).
Qed.

(** The message composed from the resolved pieces. *)
Lemma generate_resolved row name cell joined flag :
  name_expr row = Ok name ->
  row !! "Job Title" = Some cell ->
  is_bool cell = false ->
  row !! "has_joined_event" = Some joined ->
  row !! "linkedin_flag" = Some flag ->
  generate_personalized_message row =
    Ok ((match truthy joined, title_absent cell with
         | true, false => msg_joined_title name (lower (py_str cell))
         | true, true => msg_joined_generic name
         | false, false => msg_missed_title name (py_str cell)
         | false, true => msg_missed_generic name
         end) ++ (if truthy flag then LINKEDIN_PS else [])).
Proof.
  intros Hn Ht Hb Hj Hf.
  destruct (title_cond_cell _ _ Ht Hb) as (jt & Hjt & Hc & Hsame).
  unfold generate_personalized_message.
  rewrite Hn, Hjt, (getitem_lookup _ _ _ Hj), (getitem_lookup _ _ _ Hf).
  simpl. unfold base_message. rewrite Hc. rewrite negb_involutive.
  destruct (title_absent cell) eqn:Ha; simpl.
  - destruct (truthy joined), (truthy flag); simpl;
      by rewrite ?app_nil_r.
  - rewrite (Hsame eq_refl).
    destruct cell as [s| | |]; try done. simpl.
    destruct (truthy joined), (truthy flag); simpl;
      by rewrite ?app_nil_r.
Qed.

End EngineFacts.

(** ** Greeting name (line 17) *)

Section Greeting.

Implicit Types (row : Row) (s t ws rest : pystr).

Lemma name_expr_first_token row ws t rest :
  row !! "name" = Some (VStr (ws ++ t ++ rest)) ->
  forallb isspace ws = true ->
  t <> [] ->
  forallb (fun c => negb (isspace c)) t = true ->
  (rest = [] \/ exists c r, rest = c :: r /\ isspace c = true) ->
  name_expr row = Ok t.
Proof.
  intros H Hws Hne Ht Hrest. rewrite (name_expr_cell _ _ H).
  pose proof (split_first_token ws t rest Hws Hne Ht Hrest) as Hh.
  assert (Htr : truthy (VStr (ws ++ t ++ rest)) = true).
  { destruct (ws ++ t ++ rest) eqn:E; [|done].
    apply app_eq_nil in E as [_ E]. apply app_eq_nil in E as [E _]. done. }
  rewrite Htr. cbn [py_split bind].
  destruct (split (ws ++ t ++ rest)); simpl in *; congruence.
Qed.

Lemma name_expr_there row :
  row !! "name" = Some (VStr []) \/ row !! "name" = Some VNone ->
  name_expr row = Ok (lit "there").
Proof. intros [H|H]; by rewrite (name_expr_cell _ _ H). Qed.

Lemma name_expr_blank row s :
  row !! "name" = Some (VStr s) ->
  s <> [] ->
  forallb isspace s = true ->
  name_expr row = Raise IndexError.
Proof.
  intros H Hne Hs. rewrite (name_expr_cell _ _ H).
  destruct s as [|c s']; [done|]. cbn [truthy py_split bind].
  apply split_nil in Hs. by rewrite Hs.
Qed.

Lemma name_expr_nan row :
  row !! "name" = Some VNaN -> name_expr row = Raise AttributeError.
Proof. intros H. by rewrite (name_expr_cell _ _ H). Qed.

Example name_expr_jane : name_expr jane = Ok (lit "Jane").
Proof. reflexivity. Qed.

Example name_expr_empty :
  name_expr (<["name" := VStr (lit "")]> jane) = Ok (lit "there").
Proof. reflexivity. Qed.

(** The name line reads the row through its ["name"] cell only. *)
Lemma name_expr_ext row1 row2 :
  row1 !! "name" = row2 !! "name" -> name_expr row1 = name_expr row2.
Proof. intros H. unfold name_expr, getitem. by rewrite H. Qed.

Lemma job_title_expr_ext row1 row2 :
  row1 !! "Job Title" = row2 !! "Job Title" ->
  job_title_expr row1 = job_title_expr row2.
Proof. intros H. unfold job_title_expr, getitem. by rewrite H. Qed.

End Greeting.

(** C4: the greeting falls back to ["there"] for an empty string or [None],
    but a missing name as pandas stores it ([nan]) raises [AttributeError]
    and a name of spaces raises [IndexError]; no greeting is produced. *)
Theorem name_expr_raises_without_greeting :
  name_expr nan_name = Raise AttributeError
  /\ name_expr blank_name = Raise IndexError.
Proof. split; reflexivity. Qed.

(** ** Totality *)

(** C1: the function is not total. A name of spaces passes the truth test
    of line 17, [split()] returns no token and [[0]] raises [IndexError];
    a [nan] name is truthy and has no [split], so [AttributeError]. *)
Theorem generate_raises_on_blank_or_nan_name :
  generate_personalized_message blank_name = Raise IndexError
  /\ generate_personalized_message nan_name = Raise AttributeError.
Proof. split; reflexivity. Qed.

(** Where the name line succeeds the message exists and is not empty. *)
Lemma generate_nonempty (row : Row) (name : pystr) (cell joined flag : value) :
  name_expr row = Ok name ->
  row !! "Job Title" = Some cell ->
  is_bool cell = false ->
  row !! "has_joined_event" = Some joined ->
  row !! "linkedin_flag" = Some flag ->
  exists m, generate_personalized_message row = Ok m /\ m <> [].
Proof.
  intros Hn Ht Hb Hj Hf. eexists. split.
  - by apply (generate_resolved row name cell joined flag).
  - destruct (truthy joined), (title_absent cell); done.
Qed.

(** ** Template selection *)



(** ** The title sentinel *)

Lemma title_absent_spec (cell : value) :
  is_bool cell = false ->
  title_absent cell = true <->
    cell = VNone \/ cell = VNaN
    \/ exists s, cell = VStr s
         /\ (forallb isspace s = true \/ lower s = lit "unemployed").
Proof.
  intros Hb. destruct cell as [s| | |]; simpl in *; try done.
  - unfold str_eqb. rewrite orb_true_iff, bool_decide_eq_true. split.
    + intros H. right. right. by exists s.
    + intros [H|[H|(s' & [= <-] & H)]]; done.
  - split; [by right; left | done].
  - split; [by left | done].
Qed.

(** C3, as the code has it: the title is dropped when the cell is [None] or
    [nan], when it is blank, or when its lowercase form is exactly
    ["unemployed"]; the cell is compared as stored, without trimming. A
    title ["Unemployed"] gives what a [None] title gives. *)
Theorem title_sentinel_untrimmed :
  (forall (row : Row) (cell : value),
      row !! "Job Title" = Some cell ->
      is_bool cell = false ->
      exists used,
        (jt <- job_title_expr row;; title_cond jt) = Ok used
        /\ (used = false <->
              cell = VNone \/ cell = VNaN
              \/ exists s, cell = VStr s
                   /\ (forallb isspace s = true
                       \/ lower s = lit "unemployed")))
  /\ (forall row : Row,
        generate_personalized_message
          (<["Job Title" := VStr (lit "Unemployed")]> row)
        = generate_personalized_message (<["Job Title" := VNone]> row)).
Proof.
  split.
  - intros row cell H Hb.
    destruct (title_cond_cell _ _ H Hb) as (jt & Hjt & Hc & _).
    exists (negb (title_absent cell)). split.
    + by rewrite Hjt.
    + rewrite negb_false_iff. by apply title_absent_spec.
  - intros row. unfold generate_personalized_message.
    rewrite (name_expr_ext _ (<["Job Title" := VNone]> row))
      by by rewrite !lookup_insert_ne.
    destruct (name_expr _) as [name|e]; [|done]. cbn [bind].
    rewrite (job_title_expr_cell _ (VStr (lit "Unemployed")))
      by apply lookup_insert_eq.
    rewrite (job_title_expr_cell (<["Job Title" := VNone]> row) VNone)
      by apply lookup_insert_eq.
    unfold getitem. rewrite !lookup_insert_ne by done.
    destruct (row !! "has_joined_event") as [joined|]; [|done].
    destruct (row !! "linkedin_flag") as [flag|]; [|done].
    cbn [bind]. unfold base_message.
    by destruct (truthy joined).
Qed.

Lemma title_sentinel_untrimmed_sam :
  (exists used,
      (jt <- job_title_expr sam;; title_cond jt) = Ok used
      /\ (used = false <->
            VStr (lit "Engineer") = VNone \/ VStr (lit "Engineer") = VNaN
            \/ exists s, VStr (lit "Engineer") = VStr s
                 /\ (forallb isspace s = true
                     \/ lower s = lit "unemployed")))
  /\ generate_personalized_message
       (<["Job Title" := VStr (lit "Unemployed")]> sam)
     = generate_personalized_message (<["Job Title" := VNone]> sam).
Proof.
  destruct title_sentinel_untrimmed as [Hrule Hsame]. split.
  - apply (Hrule sam (VStr (lit "Engineer"))); reflexivity.
  - apply (Hsame sam).
Defined.

(** A title that is the sentinel only after trimming is kept: the message
    differs from the one for a [None] title and quotes the padded title. *)
Lemma padded_unemployed_is_used :
  strip (lit " unemployed") = lit "unemployed"
  /\ generate_personalized_message padded_unemployed
     = Ok (msg_joined_title (lit "Pat") (lit " unemployed"))
  /\ generate_personalized_message padded_unemployed
     <> generate_personalized_message (<["Job Title" := VNone]> padded_unemployed).
Proof. split_and!; [reflexivity | reflexivity | ]. vm_compute. discriminate. Qed.

(** ** The networking suffix *)

Section Suffix.

Implicit Types (l k : pystr).

Lemma last3_app l k : (3 <= length k)%nat -> last3 (l ++ k) = last3 k.
Proof.
  intros H. unfold last3. rewrite rev_app_distr.
  apply take_app_le. rewrite length_rev. lia.
Qed.

Lemma last3_suffix l k :
  (3 <= length k)%nat -> k `suffix_of` l -> last3 l = last3 k.
Proof. intros H [p ->]. by apply last3_app. Qed.

Lemma last3_templates name title :
  last3 (msg_joined_title name title) = lit "?ss"
  /\ last3 (msg_joined_generic name) = lit "!sl"
  /\ last3 (msg_missed_title name title) = lit "!em"
  /\ last3 (msg_missed_generic name) = lit "!em".
Proof.
  unfold msg_joined_title, msg_joined_generic, msg_missed_title,
    msg_missed_generic.
  split_and!; rewrite !app_assoc; rewrite last3_app; try reflexivity;
    vm_compute; lia.
Qed.

(** No base template ends with the networking sentence. *)
Lemma base_message_not_suffixed name (jt joined : value) base :
  base_message name jt joined = Ok base ->
  ~ LINKEDIN_PS `suffix_of` base.
Proof.
  intros Hbase Hsuf.
  apply last3_suffix in Hsuf; [|vm_compute; lia].
  destruct (last3_templates name (lower (py_str jt))) as (H1 & H2 & _).
  destruct (last3_templates name (py_str jt)) as (_ & _ & H3 & H4).
  unfold base_message in Hbase.
  destruct (truthy joined), (title_cond jt) as [[]|]; simpl in Hbase;
    try discriminate.
  - destruct jt; simpl in Hbase; try discriminate.
    injection Hbase as <-. simpl in H1. rewrite H1 in Hsuf. discriminate.
  - injection Hbase as <-. rewrite H2 in Hsuf. discriminate.
  - injection Hbase as <-. rewrite H3 in Hsuf. discriminate.
  - injection Hbase as <-. rewrite H4 in Hsuf. discriminate.
Qed.

End Suffix.

(** C5: the message is the base message of the same contact, with the
    networking sentence appended at the end when the flag is set and
    nothing appended otherwise, whichever template the base is; the message
    ends with that sentence exactly when the flag is set. *)
Theorem linkedin_suffix_iff_flag
    (row : Row) (name : pystr) (cell joined flag : value) :
  name_expr row = Ok name ->
  row !! "Job Title" = Some cell ->
  is_bool cell = false ->
  row !! "has_joined_event" = Some joined ->
  row !! "linkedin_flag" = Some flag ->
  exists jt base m,
    job_title_expr row = Ok jt
    /\ base_message name jt joined = Ok base
    /\ generate_personalized_message (<["linkedin_flag" := VBool false]> row)
       = Ok base
    /\ generate_personalized_message row = Ok m
    /\ m = (if truthy flag then base ++ LINKEDIN_PS else base)
    /\ (LINKEDIN_PS `suffix_of` m <-> truthy flag = true).
Proof.
  intros Hn Ht Hb Hj Hf.
  destruct (title_cond_cell _ _ Ht Hb) as (jt & Hjt & Hc & Hsame).
  assert (Hbase : exists base, base_message name jt joined = Ok base).
  { unfold base_message. rewrite Hc.
    destruct (truthy joined), (title_absent cell) eqn:Ha; simpl; eauto.
    rewrite (Hsame eq_refl). destruct cell; try done. simpl. eauto. }
  destruct Hbase as [base Hbase].
  exists jt, base, (if truthy flag then base ++ LINKEDIN_PS else base).
  split_and!; try done.
  - unfold generate_personalized_message.
    rewrite (name_expr_ext _ row) by by rewrite lookup_insert_ne.
    rewrite (job_title_expr_ext _ row) by by rewrite lookup_insert_ne.
    rewrite Hn, Hjt. unfold getitem.
    rewrite lookup_insert_ne by done. rewrite lookup_insert_eq, Hj.
    cbn [bind]. by rewrite Hbase.
  - unfold generate_personalized_message.
    rewrite Hn, Hjt, (getitem_lookup _ _ _ Hj), (getitem_lookup _ _ _ Hf).
    cbn [bind]. rewrite Hbase. cbn [bind]. rewrite negb_involutive.
    by destruct (truthy flag).
  - destruct (truthy flag); split; try done.
    + intros _. by apply suffix_app_r.
    + intros H. by apply base_message_not_suffixed in Hbase.
Qed.

Lemma linkedin_suffix_iff_flag_jane :
  exists jt base m,
    job_title_expr jane = Ok jt
    /\ base_message (lit "Jane") jt (VBool false) = Ok base
    /\ generate_personalized_message (<["linkedin_flag" := VBool false]> jane)
       = Ok base
    /\ generate_personalized_message jane = Ok m
    /\ m = (if truthy (VBool true) then base ++ LINKEDIN_PS else base)
    /\ (LINKEDIN_PS `suffix_of` m <-> truthy (VBool true) = true).
Proof.
  apply (linkedin_suffix_iff_flag jane (lit "Jane")
           (VStr (lit "Data Analyst")) (VBool false) (VBool true));
    reflexivity.
Defined.

(** ** Determinism and the fields read *)

(** C7: calling the method twice on the same row gives the same outcome,
    leaves the messenger as it was, and the outcome does not depend on what
    the messenger holds, also after [generate_all_messages] has run. *)
Theorem generate_twice_same (self : Messenger) (row : Row) :
  let '(self1, first) := call_generate row self in
  let '(self2, second) := call_generate row self1 in
  first = second
  /\ self2 = self
  /\ (forall other : Messenger, snd (call_generate row other) = first)
  /\ snd (call_generate row (fst (generate_all_messages self))) = first.
Proof. unfold call_generate, liftR. by split_and!. Qed.

(** C10: two rows with the same name, job title, attendance flag and
    profile flag get the same message, whatever else they hold. *)
Theorem message_reads_four_fields (row1 row2 : Row) :
  row1 !! "name" = row2 !! "name" ->
  row1 !! "Job Title" = row2 !! "Job Title" ->
  row1 !! "has_joined_event" = row2 !! "has_joined_event" ->
  row1 !! "linkedin_flag" = row2 !! "linkedin_flag" ->
  generate_personalized_message row1 = generate_personalized_message row2.
Proof.
  intros Hn Ht Hj Hf. unfold generate_personalized_message.
  rewrite (name_expr_ext _ _ Hn), (job_title_expr_ext _ _ Ht).
  unfold getitem. by rewrite Hj, Hf.
Qed.

Lemma message_reads_four_fields_sam :
  generate_personalized_message sam
  = generate_personalized_message
      (<["email" := VStr (lit "other@example.org")]>
         (<["phone" := VStr (lit "555-0100")]> sam)).
Proof.
  apply (message_reads_four_fields sam
           (<["email" := VStr (lit "other@example.org")]>
              (<["phone" := VStr (lit "555-0100")]> sam)));
    reflexivity.
Defined.

(** ** One record per contact *)

Section AllMessages.

Implicit Types (self : Messenger) (rows : list Row) (recs : list MessageRecord).

Lemma generate_loop_ok rows recs self :
  Forall2 record_for rows recs ->
  generate_loop rows self
  = ({| df := df self; messages := messages self ++ recs |}, Ok tt).
Proof.
  intros H. revert self.
  induction H as [|row rec rows recs (Hg & He & Hn & Hj & Ht) _ IH];
    intros self; simpl.
  - rewrite app_nil_r. by destruct self.
  - unfold mbind, call_generate, liftR, append_message. rewrite Hg.
    rewrite (getitem_lookup _ _ _ He), (getitem_lookup _ _ _ Hn),
      (getitem_lookup _ _ _ Hj), (getitem_lookup _ _ _ Ht).
    rewrite IH. simpl. rewrite <- app_assoc. by destruct rec.
Qed.

Lemma generate_all_messages_ok self recs :
  Forall2 record_for (df self) recs ->
  generate_all_messages self
  = ({| df := df self; messages := recs |}, Ok recs).
Proof.
  intros H. unfold generate_all_messages, mbind, set_messages, get_df,
    get_messages. simpl.
  by rewrite (generate_loop_ok _ recs).
Qed.

Lemma generate_ok_lookups (row : Row) m :
  generate_personalized_message row = Ok m ->
  is_Some (row !! "name") /\ is_Some (row !! "has_joined_event")
  /\ is_Some (row !! "Job Title").
Proof.
  intros H.
  split_and!;
    match goal with |- is_Some ?o => destruct o eqn:E; [done|] end;
    exfalso; revert H;
    unfold generate_personalized_message, name_expr, job_title_expr, getitem;
    rewrite ?E; cbn [bind];
    repeat (match goal with
            | |- context [bind ?r _] => destruct r; cbn [bind]
            | |- context [if ?b then _ else _] => destruct b
            end); done.
Qed.

Lemma record_for_exists rows :
  Forall (fun row => (exists m, generate_personalized_message row = Ok m)
                     /\ is_Some (row !! "email")) rows ->
  exists recs, Forall2 record_for rows recs.
Proof.
  induction 1 as [|row rows ([m Hm] & [email He]) _ [recs IH]].
  - by exists [].
  - destruct (generate_ok_lookups _ _ Hm) as ([n Hn] & [j Hj] & [t Ht]).
    exists ({| m_email := email; m_name := n; m_message := m;
               m_has_joined_event := j; m_job_title := t |} :: recs).
    by constructor.
Qed.

(** When every row gets a message and has an email, the call returns one
    record per row, in row order, each with its row's email, and [self.df]
    is what it was. *)
Lemma generate_all_messages_one_per_row self :
  Forall (fun row => (exists m, generate_personalized_message row = Ok m)
                     /\ is_Some (row !! "email")) (df self) ->
  exists recs,
    generate_all_messages self
    = ({| df := df self; messages := recs |}, Ok recs)
    /\ length recs = length (df self)
    /\ Forall2 record_for (df self) recs.
Proof.
  intros H. destruct (record_for_exists _ H) as [recs Hrecs].
  exists recs. split_and!; [by apply generate_all_messages_ok | | done].
  symmetry. by eapply Forall2_length.
Qed.

End AllMessages.

(** C6: with a contact whose name is blank between two good contacts, the
    call raises [IndexError] instead of returning three records, and
    [self.messages] is left holding the single record made before it. *)
Theorem generate_all_messages_stops_at_blank_name :
  let self := {| df := [sam; blank_name; ana]; messages := [] |} in
  snd (generate_all_messages self) = Raise IndexError
  /\ df (fst (generate_all_messages self)) = [sam; blank_name; ana]
  /\ length (messages (fst (generate_all_messages self))) = 1%nat
  /\ map m_email (messages (fst (generate_all_messages self)))
     = [VStr (lit "sam@example.com")].
Proof. split_and!; reflexivity. Qed.

(** ** The message queue *)

Section QueueFacts.

Implicit Types (rows : list Row) (col joins : list value)
  (msgs : list LoadedMessage) (self : Automation).

Lemma py_eq_true a b : py_eq a b = true -> a = b.
Proof.
  destruct a as [s|x| |], b as [t|y| |]; simpl; try done.
  - unfold str_eqb. rewrite bool_decide_eq_true. by intros ->.
  - intros H. apply Bool.eqb_prop in H. by subst.
Qed.

Lemma py_eq_str s : py_eq (VStr s) (VStr s) = true.
Proof. simpl. unfold str_eqb. by rewrite bool_decide_eq_true. Qed.

Lemma column_Forall2 rows k col :
  column rows k = Ok col <-> Forall2 (fun row v => row !! k = Some v) rows col.
Proof.
  revert col. induction rows as [|row rows IH]; intros col; simpl.
  - split.
    + intros [= <-]. constructor.
    + intros H. by inversion H.
  - unfold getitem. split.
    + destruct (row !! k) as [v|] eqn:E; [|done]. cbn [bind].
      destruct (column rows k) as [vs|] eqn:E'; [|done]. cbn [bind].
      intros [= <-]. constructor; [done|]. by apply IH.
    + intros H. inversion H as [|? v ? vs Hv Hvs]; subst.
      rewrite Hv. cbn [bind]. apply IH in Hvs. by rewrite Hvs.
Qed.

Lemma column_total rows k :
  Forall (fun row => is_Some (row !! k)) rows ->
  exists col, column rows k = Ok col.
Proof.
  induction 1 as [|row rows [v Hv] _ [col IH]]; simpl.
  - by exists [].
  - exists (v :: col). by rewrite (getitem_lookup _ _ _ Hv), IH.
Qed.

Lemma boolean_index_none rows col e :
  e ∉ col -> boolean_index rows (map (fun c => py_eq c e) col) = [].
Proof.
  revert rows. induction col as [|c col IH]; intros rows Hnot.
  - by destruct rows.
  - destruct rows as [|row rows]; [done|]. simpl.
    apply not_elem_of_cons in Hnot as [Hne Hnot].
    destruct (py_eq c e) eqn:E.
    + apply py_eq_true in E. congruence.
    + by apply IH.
Qed.

(** With distinct emails the mask selects the one contact of the message. *)
Lemma boolean_index_unique rows col i row s :
  Forall2 (fun row v => row !! "email" = Some v) rows col ->
  NoDup col ->
  rows !! i = Some row ->
  col !! i = Some (VStr s) ->
  boolean_index rows (map (fun c => py_eq c (VStr s)) col) = [row].
Proof.
  intros H. revert i. induction H as [|r v rows col Hr _ IH]; intros i Hnd Hi Hc.
  - done.
  - apply NoDup_cons in Hnd as [Hnot Hnd]. destruct i as [|i]; simpl in *.
    + injection Hi as ->. injection Hc as ->.
      rewrite py_eq_str. by rewrite boolean_index_none.
    + destruct (py_eq v (VStr s)) eqn:E.
      * apply py_eq_true in E. subst v. exfalso. apply Hnot.
        by eapply list_elem_of_lookup_2.
      * by eapply IH.
Qed.

Lemma queue_items_aligned self col joins msgs i :
  column (a_df self) "email" = Ok col ->
  column (a_df self) "has_joined_event" = Ok joins ->
  NoDup col ->
  Forall (fun v => is_str v = true) col ->
  map lm_email msgs = drop i col ->
  queue_items self i msgs = Ok (items_for i msgs (drop i joins)).
Proof.
  intros Hcol Hjoins Hnd Hstr. revert i.
  pose proof (proj1 (column_Forall2 _ _ _) Hcol) as Hc2.
  pose proof (proj1 (column_Forall2 _ _ _) Hjoins) as Hj2.
  induction msgs as [|msg rest IH]; intros i Hm; [done|].
  simpl in Hm.
  assert (Hci : col !! i = Some (lm_email msg)).
  { rewrite <- (Nat.add_0_r i), <- lookup_drop, <- Hm. done. }
  assert (Hrest : map lm_email rest = drop (S i) col).
  { replace (S i) with (i + 1)%nat by lia. by rewrite <- drop_drop, <- Hm. }
  destruct (Forall2_lookup_r _ _ _ _ _ Hc2 Hci) as (row & Hrow & Hemail).
  destruct (Forall2_lookup_l _ _ _ _ _ Hj2 Hrow) as (j & Hj & Hjoined).
  assert (Hs : exists s, lm_email msg = VStr s).
  { eapply Forall_lookup_1 in Hstr; [|exact Hci].
    destruct (lm_email msg); try done. eauto. }
  destruct Hs as [s Es]. rewrite Es in Hci.
  cbn [queue_items]. rewrite Hcol. cbn [bind]. rewrite Es.
  rewrite (boolean_index_unique _ _ i row s) by done.
  cbn [index0 bind]. rewrite (getitem_lookup _ _ _ Hjoined). cbn [bind].
  rewrite (IH _ Hrest). cbn [bind].
  by rewrite (drop_S _ _ _ Hj).
Qed.

Lemma items_for_length i msgs joins :
  length msgs = length joins -> length (items_for i msgs joins) = length msgs.
Proof.
  revert i joins. induction msgs as [|msg msgs IH]; intros i [|j joins];
    simpl; try done.
  intros [= H]. by rewrite IH.
Qed.

Lemma items_for_lookup i msgs joins k msg j :
  msgs !! k = Some msg -> joins !! k = Some j ->
  items_for i msgs joins !! k = Some (queue_item (i + k) msg j).
Proof.
  revert i joins k. induction msgs as [|m msgs IH];
    intros i [|j0 joins] [|k]; simpl; try done.
  - intros [= ->] [= ->]. by rewrite Nat.add_0_r.
  - intros Hm Hj. rewrite (IH (S i) joins k) by done.
    do 2 f_equal. lia.
Qed.

(** With two contacts under one email, the second message is queued with
    the first contact's attendance. *)
Example first_match_decides :
  (fun items => map q_priority items) <$>
    (match create_message_queue twins with
     | Ok (Some q) => Some (queue_messages q)
     | _ => None
     end)
  = Some [lit "high"; lit "high"].
Proof. reflexivity. Qed.

(** The batch of [create_telegram_batch] tags each record by its own
    attendance cell. *)
Lemma telegram_batch_priority (self : Messenger) :
  messages self <> [] ->
  exists batch,
    create_telegram_batch self = (self, Ok batch)
    /\ tb_messages batch = map telegram_item (messages self)
    /\ Forall2 (fun msg item =>
                  t_recipient_email item = m_email msg
                  /\ t_priority item
                     = if truthy (m_has_joined_event msg)
                       then lit "high" else lit "normal")
               (messages self) (tb_messages batch).
Proof.
  intros Hne.
  exists {| tb_bot_name := lit "EventFollowUpBot";
            tb_total_messages := length (messages self);
            tb_messages := map telegram_item (messages self) |}.
  split_and!.
  - unfold create_telegram_batch, ensure_messages, mbind, get_messages, mret.
    simpl. destruct (messages self) eqn:E; [done|]. by rewrite E.
  - done.
  - simpl. apply Forall2_fmap_r, Forall_Forall2_diag, Forall_forall. by intros.
Qed.

End QueueFacts.

(** C8: for contacts with distinct string emails, each holding an
    attendance cell, and one message per contact in the same order, the
    queue has one entry per message: the message's email and text, priority
    ["high"] with delay 0 when the contact attended and ["normal"] with
    delay 30 otherwise, retry count 0, at most 3 retries, status
    ["pending"]. *)
Theorem queue_entry_per_message (self : Automation) :
  a_messages self <> [] ->
  column (a_df self) "email" = Ok (map lm_email (a_messages self)) ->
  NoDup (map lm_email (a_messages self)) ->
  Forall (fun msg => is_str (lm_email msg) = true) (a_messages self) ->
  Forall (fun row => is_Some (row !! "has_joined_event")) (a_df self) ->
  exists q,
    create_message_queue self = Ok (Some q)
    /\ length (queue_messages q) = length (a_messages self)
    /\ forall i msg row,
         a_messages self !! i = Some msg ->
         a_df self !! i = Some row ->
         exists item joined,
           queue_messages q !! i = Some item
           /\ row !! "has_joined_event" = Some joined
           /\ q_recipient_email item = lm_email msg
           /\ q_message_text item = lm_message msg
           /\ q_priority item
              = (if truthy joined then lit "high" else lit "normal")
           /\ q_scheduled_delay_minutes item
              = (if truthy joined then 0 else 30)
           /\ q_retry_count item = 0
           /\ q_max_retries item = 3
           /\ q_status item = lit "pending".
Proof.
  intros Hne Hcol Hnd Hstr Hjoin.
  destruct (column_total _ _ Hjoin) as [joins Hjoins].
  pose proof (proj1 (column_Forall2 _ _ _) Hcol) as Hc2.
  pose proof (proj1 (column_Forall2 _ _ _) Hjoins) as Hj2.
  assert (Hlen : length (a_messages self) = length joins).
  { rewrite <- (length_map lm_email).
    rewrite <- (Forall2_length _ _ _ Hc2). by eapply Forall2_length. }
  assert (Hitems : queue_items self 0 (a_messages self)
                   = Ok (items_for 0 (a_messages self) joins)).
  { apply (queue_items_aligned self (map lm_email (a_messages self)) joins);
      try done.
    by apply Forall_fmap. }
  exists {| bot_token := lit "YOUR_BOT_TOKEN_HERE";
            bot_name := lit "EventFollowUpBot";
            total_messages := length (a_messages self);
            estimated_send_time :=
              decimal (length (a_messages self) * 2) ++ lit " seconds";
            queue_messages := items_for 0 (a_messages self) joins |}.
  split_and!.
  - unfold create_message_queue. rewrite Hitems.
    by destruct (a_messages self).
  - simpl. by apply items_for_length.
  - intros i msg row Hm Hr. simpl.
    destruct (Forall2_lookup_l _ _ _ _ _ Hj2 Hr) as (j & Hj & Hjoined).
    exists (queue_item i msg j), j.
    split_and!; try done.
    + by rewrite (items_for_lookup 0 _ _ i msg j).
    + unfold queue_item. by destruct (truthy j).
    + unfold queue_item. by destruct (truthy j).
    + unfold queue_item. by destruct (truthy j).
    + unfold queue_item. by destruct (truthy j).
    + unfold queue_item. by destruct (truthy j).
    + unfold queue_item. by destruct (truthy j).
    + unfold queue_item. by destruct (truthy j).
Qed.

(** ** Email dispatch: one failed delivery does not stop the batch *)

Section SmtpFacts.

Context {World : Type}.
Variable login : World -> value -> value -> World * result unit.
Variable sendmail : World -> value -> value -> value -> World * result unit.
Variable quit : World -> World * result unit.

Implicit Types (r : Run World) (msgs : list LoadedMessage) (w : World).

Lemma count_ok_cons (o : result unit) os :
  count_ok (o :: os) = ((if is_ok o then 1 else 0) + count_ok os)%nat.
Proof.
  unfold count_ok. destruct o as [[]|e].
  - by rewrite filter_cons_True.
  - by rewrite filter_cons_False.
Qed.

Lemma count_raise_cons (o : result unit) os :
  count_raise (o :: os) = ((if is_ok o then 0 else 1) + count_raise os)%nat.
Proof.
  unfold count_raise. destruct o as [[]|e].
  - by rewrite filter_cons_False.
  - by rewrite filter_cons_True.
Qed.

Lemma count_ok_raise (os : list (result unit)) :
  (count_ok os + count_raise os = length os)%nat.
Proof.
  induction os as [|o os IH]; [done|].
  rewrite count_ok_cons, count_raise_cons. simpl. destruct (is_ok o); lia.
Qed.

Lemma deliveries_length sender (pairs : list (value * value)) w :
  length (fst (deliveries sendmail sender pairs w)) = length pairs.
Proof.
  revert w. induction pairs as [|[to body] pairs IH]; intros w; simpl; [done|].
  destruct (sendmail w sender to body) as [w1 o].
  specialize (IH w1). destruct (deliveries sendmail sender pairs w1).
  simpl in *. by rewrite IH.
Qed.

Lemma deliveries_cons sender to body pairs w :
  deliveries sendmail sender ((to, body) :: pairs) w
  = (snd (sendmail w sender to body)
       :: fst (deliveries sendmail sender pairs
                 (fst (sendmail w sender to body))),
     snd (deliveries sendmail sender pairs (fst (sendmail w sender to body)))).
Proof.
  simpl. destruct (sendmail w sender to body) as [w1 o]. simpl.
  by destruct (deliveries sendmail sender pairs w1).
Qed.

(** One pass through the [try] statement: it does not raise, whatever the
    server answers, and prints and counts the outcome. *)
Lemma batch_attempt_run sender n (batch_size delay : N) i msg r :
  batch_size <> 0 ->
  exists line,
    batch_attempt World sendmail sender n batch_size delay i msg r
    = ({| world := fst (sendmail (world r) sender (lm_email msg)
                          (lm_message msg));
          out := out r ++ line;
          successful_sends :=
            successful_sends r
            + (if is_ok (snd (sendmail (world r) sender (lm_email msg)
                                (lm_message msg))) then 1 else 0);
          failed_sends :=
            failed_sends r
            + (if is_ok (snd (sendmail (world r) sender (lm_email msg)
                                (lm_message msg))) then 0 else 1) |},
       Ok tt)
    /\ recipients line = [lm_email msg]
    /\ length (filter (fun e => is_failed e = true) line)
       = (if is_ok (snd (sendmail (world r) sender (lm_email msg)
                           (lm_message msg))) then 0 else 1)%nat
    /\ existsb is_summary line = false.
Proof.
  intros Hbs. unfold batch_attempt, try_, mbind, on_world, count_success,
    count_failure, say, liftR, py_mod, mret.
  destruct (sendmail (world r) sender (lm_email msg) (lm_message msg))
    as [w1 [[]|e]]; simpl.
  - destruct (batch_size =? 0) eqn:Eb; [by apply N.eqb_eq in Eb|].
    destruct ((N.of_nat (i + 1) `mod` batch_size =? 0) && (i + 1 <? n)%nat);
      simpl.
    + exists [ESent (i + 1) n (lm_email msg); EPause delay].
      split_and!; try done.
      rewrite <- app_assoc. do 2 f_equal; lia.
    + exists [ESent (i + 1) n (lm_email msg)].
      split_and!; try done. do 2 f_equal; lia.
  - exists [EFailed (i + 1) n (lm_email msg) e].
    split_and!; try done. do 2 f_equal; lia.
Qed.

Lemma recipients_app (l k : list event) :
  recipients (l ++ k) = recipients l ++ recipients k.
Proof.
  induction l as [|e l IH]; simpl; [done|].
  destruct e; simpl; by rewrite ?IH.
Qed.

(** The loop of [send_batch_emails] offers every message to the server, in
    order, and never raises: each outcome is printed and counted. *)
Lemma batch_loop_isolates sender n (batch_size delay : N) msgs :
  batch_size <> 0 ->
  forall i r,
  exists new,
    batch_loop World sendmail sender n batch_size delay i msgs r
    = ({| world := snd (deliveries sendmail sender (map loaded_pair msgs)
                          (world r));
          out := out r ++ new;
          successful_sends :=
            successful_sends r
            + count_ok (fst (deliveries sendmail sender
                               (map loaded_pair msgs) (world r)));
          failed_sends :=
            failed_sends r
            + count_raise (fst (deliveries sendmail sender
                                  (map loaded_pair msgs) (world r))) |},
       Ok tt)
    /\ recipients new = map lm_email msgs
    /\ length (filter (fun e => is_failed e = true) new)
       = count_raise (fst (deliveries sendmail sender
                             (map loaded_pair msgs) (world r)))
    /\ existsb is_summary new = false.
Proof.
  intros Hbs. induction msgs as [|msg rest IH]; intros i r.
  - exists []. simpl. unfold mret, count_ok, count_raise. simpl.
    rewrite app_nil_r, !Nat.add_0_r. by destruct r.
  - destruct (batch_attempt_run sender n batch_size delay i msg r Hbs)
      as (line & Hstep & Hrec1 & Hfail1 & Hsum1).
    cbn [batch_loop map]. unfold loaded_pair at 1 3 5 7.
    rewrite deliveries_cons. cbn [fst snd].
    rewrite count_ok_cons, count_raise_cons.
    unfold mbind at 1. rewrite Hstep.
    match goal with
    | |- context [batch_loop _ _ _ _ _ _ _ _ ?r1] =>
        destruct (IH (S i) r1) as (new & Hrun & Hrec & Hfail & Hsum)
    end.
    cbn [world out successful_sends failed_sends] in Hrun, Hfail.
    exists (line ++ new). rewrite Hrun. split_and!.
    + f_equal. f_equal; [by rewrite app_assoc | lia | lia].
    + by rewrite recipients_app, Hrec1, Hrec.
    + rewrite filter_app, length_app, Hfail1, Hfail. done.
    + by rewrite existsb_app, Hsum1, Hsum.
Qed.

Lemma smtp_attempt_run sender (msg : MessageRecord) r :
  exists line,
    smtp_attempt World sendmail sender msg r
    = ({| world := fst (sendmail (world r) sender (m_email msg)
                          (VStr (m_message msg)));
          out := out r ++ line;
          successful_sends :=
            successful_sends r
            + (if is_ok (snd (sendmail (world r) sender (m_email msg)
                                (VStr (m_message msg)))) then 1 else 0);
          failed_sends := failed_sends r |},
       Ok tt)
    /\ recipients line = [m_email msg]
    /\ length (filter (fun e => is_failed e = true) line)
       = (if is_ok (snd (sendmail (world r) sender (m_email msg)
                           (VStr (m_message msg)))) then 0 else 1)%nat
    /\ existsb is_summary line = false.
Proof.
  unfold smtp_attempt, try_, mbind, on_world, count_success, say.
  destruct (sendmail (world r) sender (m_email msg) (VStr (m_message msg)))
    as [w1 [[]|e]]; simpl.
  - exists [ESentTo (m_email msg)]. split_and!; try done.
    do 2 f_equal; lia.
  - exists [EFailedTo (m_email msg) e]. split_and!; try done.
    do 2 f_equal; lia.
Qed.

(** The loop of [send_email_smtp] does the same, but keeps no count of the
    failures: only [sent_count] moves. *)
Lemma smtp_loop_isolates sender (msgs : list MessageRecord) :
  forall r,
  exists new,
    smtp_loop World sendmail sender msgs r
    = ({| world := snd (deliveries sendmail sender (map record_pair msgs)
                          (world r));
          out := out r ++ new;
          successful_sends :=
            successful_sends r
            + count_ok (fst (deliveries sendmail sender
                               (map record_pair msgs) (world r)));
          failed_sends := failed_sends r |},
       Ok tt)
    /\ recipients new = map m_email msgs
    /\ length (filter (fun e => is_failed e = true) new)
       = count_raise (fst (deliveries sendmail sender
                             (map record_pair msgs) (world r)))
    /\ existsb is_summary new = false.
Proof.
  induction msgs as [|msg rest IH]; intros r.
  - exists []. simpl. unfold mret, count_ok, count_raise. simpl.
    rewrite app_nil_r, !Nat.add_0_r. by destruct r.
  - destruct (smtp_attempt_run sender msg r)
      as (line & Hstep & Hrec1 & Hfail1 & Hsum1).
    cbn [smtp_loop map]. unfold record_pair at 1 3 5.
    rewrite deliveries_cons. cbn [fst snd].
    rewrite count_ok_cons, count_raise_cons.
    unfold mbind at 1. rewrite Hstep.
    match goal with
    | |- context [smtp_loop _ _ _ _ ?r1] =>
        destruct (IH r1) as (new & Hrun & Hrec & Hfail & Hsum)
    end.
    cbn [world out successful_sends failed_sends] in Hrun, Hfail.
    exists (line ++ new). rewrite Hrun. split_and!.
    + f_equal. f_equal; [by rewrite app_assoc | lia].
    + by rewrite recipients_app, Hrec1, Hrec.
    + rewrite filter_app, length_app, Hfail1, Hfail. done.
    + by rewrite existsb_app, Hsum1, Hsum.
Qed.

(** A live [send_email_smtp] session: every record is offered to the
    server; when [quit] succeeds the report gives the number sent out of
    the total, and when it raises the error line replaces the report. *)
Lemma smtp_session_isolates (msgs : list MessageRecord)
    (sender_email sender_password : value) w0 w1 :
  truthy sender_email = true ->
  truthy sender_password = true ->
  login w0 sender_email sender_password = (w1, Ok tt) ->
  exists new,
    recipients new = map m_email msgs
    /\ length (filter (fun e => is_failed e = true) new)
       = count_raise (fst (deliveries sendmail sender_email
                             (map record_pair msgs) w1))
    /\ existsb is_summary new = false
    /\ smtp_session World login sendmail quit msgs sender_email
         sender_password false (start w0)
       = match quit (snd (deliveries sendmail sender_email
                            (map record_pair msgs) w1)) with
         | (w3, Ok _) =>
             ({| world := w3;
                 out := new
                        ++ [EReport (count_ok (fst (deliveries sendmail
                                        sender_email (map record_pair msgs)
                                        w1)))
                                    (length msgs)];
                 successful_sends :=
                   count_ok (fst (deliveries sendmail sender_email
                                    (map record_pair msgs) w1));
                 failed_sends := 0 |}, Ok true)
         | (w3, Raise e) =>
             ({| world := w3;
                 out := new ++ [EServerError e];
                 successful_sends :=
                   count_ok (fst (deliveries sendmail sender_email
                                    (map record_pair msgs) w1));
                 failed_sends := 0 |}, Ok false)
         end.
Proof.
  intros Hse Hsp Hlogin.
  destruct (smtp_loop_isolates sender_email msgs
              {| world := w1; out := []; successful_sends := 0;
                 failed_sends := 0 |})
    as (new & Hrun & Hrec & Hfail & Hsum).
  cbn [world out successful_sends failed_sends] in Hrun, Hfail.
  exists new. split_and!; try done.
  unfold smtp_session. rewrite Hse, Hsp. cbn [negb orb].
  unfold try_, mbind at 1. unfold on_world at 1, start. cbn [world].
  rewrite Hlogin. cbn [world out successful_sends failed_sends].
  unfold mbind at 1. rewrite Hrun.
  unfold mbind, on_world, get_counts, say, mret.
  cbn [world out successful_sends failed_sends fst snd app Nat.add].
  by destruct (quit _) as [w3 [[]|e]].
Qed.

(** C9, as the code has it: in a live batch (messages present, a batch
    size other than 0, credentials set, the connection validated and
    opened) every message is offered to the server in order, whatever the
    earlier outcomes; each failure is printed and counted, and the batch
    never raises. The summary of both counts is printed at the end when
    [quit] succeeds; when [quit] raises, the server-error line is printed
    instead, the call returns [False] and no summary appears. *)
Theorem send_batch_emails_isolates_failures (self : Automation)
    (env_email env_password : pystr) (sender_email sender_password : value)
    (batch_size delay : N) (w0 w1 w2 w3 : World) :
  a_messages self <> [] ->
  batch_size <> 0 ->
  truthy (py_or sender_email (VStr env_email)) = true ->
  truthy (py_or sender_password (VStr env_password)) = true ->
  login w0 (py_or sender_email (VStr env_email))
    (py_or sender_password (VStr env_password)) = (w1, Ok tt) ->
  quit w1 = (w2, Ok tt) ->
  login w2 (py_or sender_email (VStr env_email))
    (py_or sender_password (VStr env_password)) = (w3, Ok tt) ->
  exists new outcomes w4,
    deliveries sendmail (py_or sender_email (VStr env_email))
      (map loaded_pair (a_messages self)) w3 = (outcomes, w4)
    /\ recipients new = map lm_email (a_messages self)
    /\ length (filter (fun e => is_failed e = true) new)
       = count_raise outcomes
    /\ (count_ok outcomes + count_raise outcomes
        = length (a_messages self))%nat
    /\ existsb is_summary new = false
    /\ send_batch_emails World login sendmail quit self env_email
         env_password sender_email sender_password batch_size delay false
         (start w0)
       = match quit w4 with
         | (w5, Ok _) =>
             ({| world := w5;
                 out := EStarting :: new
                        ++ [ESummary (count_ok outcomes)
                                     (count_raise outcomes)];
                 successful_sends := count_ok outcomes;
                 failed_sends := count_raise outcomes |},
              Ok (0 <? count_ok outcomes)%nat)
         | (w5, Raise e) =>
             ({| world := w5;
                 out := EStarting :: new ++ [EServerError e];
                 successful_sends := count_ok outcomes;
                 failed_sends := count_raise outcomes |},
              Ok false)
         end.
Proof.
  intros Hne Hbs Hse Hsp Hval Hquit Hlogin.
  set (se := py_or sender_email (VStr env_email)) in *.
  set (sp := py_or sender_password (VStr env_password)) in *.
  destruct (batch_loop_isolates se (length (a_messages self)) batch_size
              delay (a_messages self) Hbs 0
              {| world := w3; out := [EStarting]; successful_sends := 0;
                 failed_sends := 0 |})
    as (new & Hrun & Hrec & Hfail & Hsum).
  cbn [world out successful_sends failed_sends] in Hrun, Hfail.
  destruct (deliveries sendmail se (map loaded_pair (a_messages self)) w3)
    as [outcomes w4] eqn:Ed.
  cbn [fst snd] in Hrun, Hfail.
  exists new, outcomes, w4. split_and!; try done.
  - rewrite count_ok_raise.
    pose proof (deliveries_length se (map loaded_pair (a_messages self)) w3)
      as Hlen.
    rewrite Ed in Hlen. simpl in Hlen. by rewrite Hlen, length_map.
  - unfold send_batch_emails.
    destruct (a_messages self) as [|m0 ms] eqn:Em; [done|].
    rewrite <- Em in *. fold se sp. rewrite Hse, Hsp. cbn [negb orb].
    unfold mbind at 1. unfold validate_email_setup, try_ at 1.
    unfold mbind at 1. unfold on_world at 1, start. cbn [world].
    rewrite Hval. cbn [world out successful_sends failed_sends].
    unfold mbind at 1. unfold on_world at 1. cbn [world]. rewrite Hquit.
    cbn [world out successful_sends failed_sends mret negb].
    unfold mbind at 1. unfold say at 1.
    cbn [world out successful_sends failed_sends app].
    unfold mbind at 1. unfold try_ at 1. unfold mbind at 1.
    unfold on_world at 1. cbn [world]. rewrite Hlogin.
    cbn [world out successful_sends failed_sends].
    unfold mbind at 1. rewrite Hrun.
    unfold mbind, on_world, get_counts, say, mret.
    cbn [world out successful_sends failed_sends fst snd app Nat.add].
    destruct (quit w4) as [w5 [[]|e]];
      cbn [negb world out successful_sends failed_sends fst snd app];
      by rewrite <- ?app_assoc.
Qed.

End SmtpFacts.

Lemma send_batch_emails_isolates_failures_three :
  let env_email := lit "me@example.com" in
  let env_password := lit "app-password" in
  exists new outcomes w4,
    deliveries refuse_missing (py_or VNone (VStr env_email))
      (map loaded_pair (a_messages three_loaded)) tt = (outcomes, w4)
    /\ recipients new = map lm_email (a_messages three_loaded)
    /\ length (filter (fun e => is_failed e = true) new)
       = count_raise outcomes
    /\ (count_ok outcomes + count_raise outcomes
        = length (a_messages three_loaded))%nat
    /\ existsb is_summary new = false
    /\ send_batch_emails unit accept_login refuse_missing quit_ok
         three_loaded env_email env_password VNone VNone 2 1 false
         (start tt)
       = match quit_ok w4 with
         | (w5, Ok _) =>
             ({| world := w5;
                 out := EStarting :: new
                        ++ [ESummary (count_ok outcomes)
                                     (count_raise outcomes)];
                 successful_sends := count_ok outcomes;
                 failed_sends := count_raise outcomes |},
              Ok (0 <? count_ok outcomes)%nat)
         | (w5, Raise e) =>
             ({| world := w5;
                 out := EStarting :: new ++ [EServerError e];
                 successful_sends := count_ok outcomes;
                 failed_sends := count_raise outcomes |},
              Ok false)
         end.
Proof.
  apply (send_batch_emails_isolates_failures accept_login refuse_missing
           quit_ok three_loaded (lit "me@example.com") (lit "app-password")
           VNone VNone 2 1 tt tt tt tt);
    [discriminate | lia | reflexivity..].
Defined.

(** The same batch as it runs: the second message fails, the third is
    still sent, and the summary closes the log. *)
Example three_loaded_run :
  send_batch_emails unit accept_login refuse_missing quit_ok three_loaded
    (lit "me@example.com") (lit "app-password") VNone VNone 2 1 false
    (start tt)
  = ({| world := tt;
        out := [ EStarting;
                 ESent 1 3 (VStr (lit "sam@example.com"));
                 EFailed 2 3 VNaN SMTPException;
                 ESent 3 3 (VStr (lit "ana@example.com"));
                 ESummary 2 1 ];
        successful_sends := 2;
        failed_sends := 1 |}, Ok true).
Proof. reflexivity. Qed.

(** Every delivery fails and drops the connection, so [quit] raises: both
    failures are printed and counted, but the log ends with the server
    error and holds no summary. [send_email_smtp] ends the same way. *)
Lemma no_summary_when_quit_raises :
  let run :=
    send_batch_emails bool login_up drop_on_send quit_if_up sam_and_ana
      (lit "me@example.com") (lit "app-password") VNone VNone 10 2 false
      (start false) in
  let session :=
    send_email_smtp bool login_up drop_on_send quit_if_up
      (VStr (lit "me@example.com")) (VStr (lit "app-password")) false
      {| df := [sam; ana]; messages := [] |} (start false) in
  out (fst run)
  = [ EStarting;
      EFailed 1 2 (VStr (lit "sam@example.com")) SMTPException;
      EFailed 2 2 (VStr (lit "ana@example.com")) SMTPException;
      EServerError SMTPException ]
  /\ failed_sends (fst run) = 2%nat
  /\ existsb is_summary (out (fst run)) = false
  /\ snd run = Ok false
  /\ out (snd (fst session))
     = [ EFailedTo (VStr (lit "sam@example.com")) SMTPException;
         EFailedTo (VStr (lit "ana@example.com")) SMTPException;
         EServerError SMTPException ]
  /\ snd session = Ok false.
Proof. split_and!; reflexivity. Qed.

Lemma queue_entry_per_message_sam_and_ana :
  exists q,
    create_message_queue sam_and_ana = Ok (Some q)
    /\ length (queue_messages q) = length (a_messages sam_and_ana)
    /\ forall i msg row,
         a_messages sam_and_ana !! i = Some msg ->
         a_df sam_and_ana !! i = Some row ->
         exists item joined,
           queue_messages q !! i = Some item
           /\ row !! "has_joined_event" = Some joined
           /\ q_recipient_email item = lm_email msg
           /\ q_message_text item = lm_message msg
           /\ q_priority item
              = (if truthy joined then lit "high" else lit "normal")
           /\ q_scheduled_delay_minutes item
              = (if truthy joined then 0 else 30)
           /\ q_retry_count item = 0
           /\ q_max_retries item = 3
           /\ q_status item = lit "pending".
Proof.
  apply (queue_entry_per_message sam_and_ana).
  - discriminate.
  - reflexivity.
  - apply NoDup_cons. split.
    + rewrite list_elem_of_singleton. discriminate.
    + apply NoDup_singleton.
  - repeat constructor.
  - repeat constructor; by eexists.
Defined.

Example sam_and_ana_queue :
  (fun q => map (fun item => (q_id item, q_priority item,
                              q_scheduled_delay_minutes item))
                (queue_messages q)) <$>
    (match create_message_queue sam_and_ana with
     | Ok (Some q) => Some q
     | _ => None
     end)
  = Some [ (lit "msg_001", lit "high", 0); (lit "msg_002", lit "normal", 30) ].
Proof. reflexivity. Qed.

(** ** The literal examples *)

Example generate_sam :
  generate_personalized_message sam
  = Ok (PARTY ++ lit " Hey Sam, thanks for joining our session! As a engineer, we think you'll love our upcoming AI workflow tools. Want early access?").
Proof. reflexivity. Qed.

Example generate_sam_incomplete :
  generate_personalized_message (<["linkedin_flag" := VBool true]> sam)
  = Ok (PARTY ++ lit " Hey Sam, thanks for joining our session! As a engineer, we think you'll love our upcoming AI workflow tools. Want early access? P.S. We'd love to connect with you on LinkedIn to keep you updated on future opportunities!").
Proof. reflexivity. Qed.

Example generate_ana :
  generate_personalized_message ana
  = Ok (lit "Hi Ana, sorry we missed you at the last event! We're preparing another session with exciting content that we think you'll find valuable. Hope to see you next time!").
Proof. reflexivity. Qed.

Example generate_jane :
  generate_personalized_message jane
  = Ok (lit "Hi Jane, sorry we missed you at the last event! We're preparing another session that might better suit your interests as a Data Analyst. Hope to see you next time! P.S. We'd love to connect with you on LinkedIn to keep you updated on future opportunities!").
Proof. reflexivity. Qed.

Example generate_all_sam_ana :
  snd (generate_all_messages {| df := [sam; ana]; messages := [] |})
  = Ok [ {| m_email := VStr (lit "sam@example.com");
            m_name := VStr (lit "Sam Lee");
            m_message := msg_joined_title (lit "Sam") (lit "engineer");
            m_has_joined_event := VBool true;
            m_job_title := VStr (lit "Engineer") |};
         {| m_email := VStr (lit "ana@example.com");
            m_name := VStr (lit "Ana");
            m_message := msg_missed_generic (lit "Ana");
            m_has_joined_event := VBool false;
            m_job_title := VNone |} ].
Proof. reflexivity. Qed.

(** * Further properties of the rule engine *)

Section GreetingShape.

Implicit Types (row : Row) (s t cur : pystr).



(** Every token of [split] is a non-empty run without spaces. *)
Lemma split_from_tokens cur s :
  forallb (fun c => negb (isspace c)) cur = true ->
  Forall (fun t => t <> [] /\ forallb (fun c => negb (isspace c)) t = true)
         (split_from cur s).
Proof.
  revert cur. induction s as [|c s IH]; intros cur Hcur; simpl.
  - destruct cur as [|a cur]; [constructor|].
    constructor; [|constructor]. split.
    + intros E. apply (f_equal (@length N)) in E.
      rewrite length_rev in E. done.
    + by rewrite forallb_rev.
  - destruct (isspace c) eqn:Hc.
    + destruct cur as [|a cur]; [by apply IH|].
      constructor; [|by apply IH]. split.
      * intros E. apply (f_equal (@length N)) in E.
        rewrite length_rev in E. done.
      * by rewrite forallb_rev.
    + apply IH. simpl. by rewrite Hc.
Qed.

End GreetingShape.

(** X1: a name made of optional leading spaces, a run of non-space code
    points and then either nothing or a space and anything, is greeted by
    that run. *)
Theorem greeting_is_first_token (row : Row) (ws t rest : pystr) :
  row !! "name" = Some (VStr (ws ++ t ++ rest)) ->
  forallb isspace ws = true ->
  t <> [] ->
  forallb (fun c => negb (isspace c)) t = true ->
  (rest = [] \/ exists c r, rest = c :: r /\ isspace c = true) ->
  name_expr row = Ok t.
Proof. apply name_expr_first_token. Qed.

Lemma greeting_is_first_token_lou :
  name_expr lou = Ok (lit "Lou").
Proof.
  apply (greeting_is_first_token lou (lit "  ") (lit "Lou") (lit " Reed"));
    [reflexivity | reflexivity | discriminate | reflexivity | ].
  right. exists 32, (lit "Reed"). split; reflexivity.
Defined.

(** X2: whenever the name line returns, the greeting is either the literal
    ["there"] (for a falsy name cell) or the first token of a string name,
    and then it is not empty and holds no whitespace. *)
Theorem greeting_there_or_spaceless_token (row : Row) (n : pystr) :
  name_expr row = Ok n ->
  (n = lit "there"
   /\ exists c, row !! "name" = Some c /\ truthy c = false)
  \/ (exists s, row !! "name" = Some (VStr s)
        /\ head (split s) = Some n
        /\ n <> []
        /\ forallb (fun c => negb (isspace c)) n = true).
Proof.
  unfold name_expr, getitem.
  destruct (row !! "name") as [c|] eqn:E; [|done]. cbn [bind].
  destruct (truthy c) eqn:Ht.
  - destruct c as [s| | |]; cbn [py_split bind]; try done.
    intros Hidx. right. exists s.
    pose proof (split_from_tokens [] s eq_refl) as Htok. fold (split s) in Htok.
    destruct (split s) as [|t toks]; [done|]. simpl in Hidx.
    injection Hidx as ->. apply Forall_cons in Htok as [[Hne Hsp] _].
    by split_and!.
  - intros [= <-]. left. split; [done|]. by exists c.
Qed.

Lemma greeting_there_or_spaceless_token_jane :
  (lit "Jane" = lit "there"
   /\ exists c, jane !! "name" = Some c /\ truthy c = false)
  \/ (exists s, jane !! "name" = Some (VStr s)
        /\ head (split s) = Some (lit "Jane")
        /\ lit "Jane" <> []
        /\ forallb (fun c => negb (isspace c)) (lit "Jane") = true).
Proof.
  apply (greeting_there_or_spaceless_token jane (lit "Jane")). reflexivity.
Defined.

Section Outcomes.

Implicit Types (row : Row) (nc tc j f : value).

(** The name line returns exactly for a falsy cell or a string with a
    non-space code point. *)
Lemma name_expr_outcome row nc :
  row !! "name" = Some nc ->
  name_expr row =
    match nc with
    | VStr [] | VBool false | VNone => Ok (lit "there")
    | VStr s => match split s with
                | [] => Raise IndexError
                | t :: _ => Ok t
                end
    | VBool true | VNaN => Raise AttributeError
    end.
Proof.
  intros H. rewrite (name_expr_cell _ _ H).
  destruct nc as [[|c s]|[]| |]; try done.
Qed.

Lemma generate_after_name row name tc j f :
  name_expr row = Ok name ->
  row !! "Job Title" = Some tc ->
  is_bool tc = true ->
  generate_personalized_message row = Raise AttributeError.
Proof.
  intros Hn Ht Hb. unfold generate_personalized_message.
  rewrite Hn. cbn [bind]. rewrite (job_title_expr_cell _ _ Ht).
  by destruct tc.
Qed.

End Outcomes.

(** X3: on a row that has the four columns, the call returns a non-empty
    message exactly when the name cell is falsy or a string with a
    non-space code point and the title cell is not a boolean; a name of
    spaces raises [IndexError]; a [nan] or [True] name, or a boolean title
    under a usable name, raises [AttributeError]. *)
Theorem generate_outcomes (row : Row) (nc tc j f : value) :
  row !! "name" = Some nc ->
  row !! "Job Title" = Some tc ->
  row !! "has_joined_event" = Some j ->
  row !! "linkedin_flag" = Some f ->
  let usable :=
    negb (truthy nc)
    || match nc with
       | VStr s => negb (forallb isspace s)
       | _ => false
       end in
  (usable = true -> is_bool tc = false ->
   exists m, generate_personalized_message row = Ok m /\ m <> [])
  /\ (usable = true -> is_bool tc = true ->
      generate_personalized_message row = Raise AttributeError)
  /\ (forall s, nc = VStr s -> s <> [] -> forallb isspace s = true ->
      generate_personalized_message row = Raise IndexError)
  /\ (nc = VNaN \/ nc = VBool true ->
      generate_personalized_message row = Raise AttributeError).
Proof.
  intros Hn Ht Hj Hf usable.
  pose proof (name_expr_outcome _ _ Hn) as Hname.
  assert (Hok : usable = true -> exists name, name_expr row = Ok name).
  { subst usable. rewrite Hname.
    destruct nc as [[|c s]|[]| |]; simpl; try done; eauto.
    rewrite negb_true_iff. intros Hsp.
    destruct (split (c :: s)) eqn:E; [|eauto].
    apply split_nil in E. simpl in E. congruence. }
  split_and!.
  - intros Hu Hb. destruct (Hok Hu) as [name Hname'].
    by apply (generate_nonempty row name tc j f).
  - intros Hu Hb. destruct (Hok Hu) as [name Hname'].
    by apply (generate_after_name row name tc j f).
  - intros s -> Hne Hsp. unfold generate_personalized_message.
    by rewrite (name_expr_blank _ _ Hn Hne Hsp).
  - intros [-> | ->]; unfold generate_personalized_message;
      by rewrite Hname.
Qed.

Lemma generate_outcomes_lou :
  let usable :=
    negb (truthy (VStr (lit "  Lou Reed")))
    || negb (forallb isspace (lit "  Lou Reed")) in
  (usable = true -> is_bool (VStr (lit "ENGINEER")) = false ->
   exists m, generate_personalized_message lou = Ok m /\ m <> [])
  /\ (usable = true -> is_bool (VStr (lit "ENGINEER")) = true ->
      generate_personalized_message lou = Raise AttributeError)
  /\ (forall s, VStr (lit "  Lou Reed") = VStr s -> s <> [] ->
      forallb isspace s = true ->
      generate_personalized_message lou = Raise IndexError)
  /\ (VStr (lit "  Lou Reed") = VNaN \/ VStr (lit "  Lou Reed") = VBool true ->
      generate_personalized_message lou = Raise AttributeError).
Proof.
  apply (generate_outcomes lou (VStr (lit "  Lou Reed"))
           (VStr (lit "ENGINEER")) (VBool true) (VBool false)); reflexivity.
Defined.



Example generate_without_flag_column :
  generate_personalized_message (delete "linkedin_flag" sam)
  = Raise (KeyError "linkedin_flag").
Proof. reflexivity. Qed.



(** For a contact who did not attend the case of the title shows. *)
Example missed_message_keeps_title_case :
  generate_personalized_message (<["Job Title" := VStr (lit "ANALYST")]> jane)
  <> generate_personalized_message
       (<["Job Title" := VStr (lit "analyst")]> jane).
Proof. vm_compute. discriminate. Qed.

Section Openings.

Implicit Types (name title : pystr).

Lemma joined_title_opening name title :
  (PARTY ++ lit " Hey " ++ name ++ lit ", thanks for joining our session! ")
    `prefix_of` msg_joined_title name title.
Proof.
  exists (lit "As a " ++ title
          ++ lit ", we think you'll love our upcoming AI workflow tools. Want early access?").
  unfold msg_joined_title. rewrite <- !app_assoc. reflexivity.
Qed.

Lemma joined_generic_opening name :
  (PARTY ++ lit " Hey " ++ name ++ lit ", thanks for joining our session! ")
    `prefix_of` msg_joined_generic name.
Proof.
  exists (lit "We're excited to have had you participate and would love to keep you updated on our upcoming events and tools!").
  unfold msg_joined_generic. rewrite <- !app_assoc. reflexivity.
Qed.

Lemma missed_title_opening name title :
  (lit "Hi " ++ name
   ++ lit ", sorry we missed you at the last event! We're preparing another session ")
    `prefix_of` msg_missed_title name title.
Proof.
  exists (lit "that might better suit your interests as a " ++ title
          ++ lit ". Hope to see you next time!").
  unfold msg_missed_title. rewrite <- !app_assoc. reflexivity.
Qed.

Lemma missed_generic_opening name :
  (lit "Hi " ++ name
   ++ lit ", sorry we missed you at the last event! We're preparing another session ")
    `prefix_of` msg_missed_generic name.
Proof.
  exists (lit "with exciting content that we think you'll find valuable. Hope to see you next time!").
  unfold msg_missed_generic. rewrite <- !app_assoc. reflexivity.
Qed.

Lemma base_message_opening name (jt j : value) base :
  base_message name jt j = Ok base ->
  if truthy j
  then (PARTY ++ lit " Hey " ++ name
        ++ lit ", thanks for joining our session! ") `prefix_of` base
  else (lit "Hi " ++ name
        ++ lit ", sorry we missed you at the last event! We're preparing another session ")
         `prefix_of` base.
Proof.
  unfold base_message. destruct (truthy j).
  - destruct (title_cond jt) as [[]|]; cbn [bind]; try done.
    + destruct (py_lower jt) as [l|]; cbn [bind]; [|done].
      intros H. assert (base = msg_joined_title name l) as -> by congruence.
      apply joined_title_opening.
    + intros H. assert (base = msg_joined_generic name) as -> by congruence.
      apply joined_generic_opening.
  - destruct (title_cond jt) as [[]|]; cbn [bind]; try done.
    + intros H.
      assert (base = msg_missed_title name (py_str jt)) as -> by congruence.
      apply missed_title_opening.
    + intros H. assert (base = msg_missed_generic name) as -> by congruence.
      apply missed_generic_opening.
Qed.

End Openings.

(** X6: a returned message opens with the greeting: the party emoji and
    ["Hey <name>"] with thanks for a contact who attended, ["Hi <name>"]
    with the apology otherwise, [<name>] being what the name line gave. *)
Theorem message_opens_with_greeting (row : Row) (m : pystr) :
  generate_personalized_message row = Ok m ->
  exists name j,
    name_expr row = Ok name
    /\ row !! "has_joined_event" = Some j
    /\ (if truthy j
        then (PARTY ++ lit " Hey " ++ name
              ++ lit ", thanks for joining our session! ") `prefix_of` m
        else (lit "Hi " ++ name
              ++ lit ", sorry we missed you at the last event! We're preparing another session ")
               `prefix_of` m).
Proof.
  unfold generate_personalized_message.
  destruct (name_expr row) as [name|] eqn:Hn; [|done]. cbn [bind].
  destruct (job_title_expr row) as [jt|]; [|done]. cbn [bind].
  unfold getitem.
  destruct (row !! "has_joined_event") as [j|] eqn:Hj; [|done]. cbn [bind].
  destruct (row !! "linkedin_flag") as [f|]; [|done]. cbn [bind].
  destruct (base_message name jt j) as [base|] eqn:Hb; [|done]. cbn [bind].
  intros H. exists name, j. split_and!; try done.
  apply base_message_opening in Hb.
  destruct (negb (negb (truthy f)));
    [assert (m = base ++ LINKEDIN_PS) as -> by congruence
    |assert (m = base) as -> by congruence];
    destruct (truthy j); try done; by apply prefix_app_r.
Qed.

Lemma message_opens_with_greeting_jane :
  exists name j,
    name_expr jane = Ok name
    /\ jane !! "has_joined_event" = Some j
    /\ (if truthy j
        then (PARTY ++ lit " Hey " ++ name
              ++ lit ", thanks for joining our session! ")
               `prefix_of` msg_missed_title (lit "Jane") (lit "Data Analyst")
                           ++ LINKEDIN_PS
        else (lit "Hi " ++ name
              ++ lit ", sorry we missed you at the last event! We're preparing another session ")
               `prefix_of` msg_missed_title (lit "Jane") (lit "Data Analyst")
                           ++ LINKEDIN_PS).
Proof.
  apply (message_opens_with_greeting jane
           (msg_missed_title (lit "Jane") (lit "Data Analyst") ++ LINKEDIN_PS)).
  reflexivity.
Defined.

(** * Further properties of [generate_all_messages] *)

Section Records.

Implicit Types (self : Messenger) (rows : list Row) (recs : list MessageRecord).

Lemma record_of_record_for (row : Row) (rec : MessageRecord) :
  record_of row = Ok rec <-> record_for row rec.
Proof.
  unfold record_of, record_for, getitem. split.
  - destruct (generate_personalized_message row) as [m|]; [|done].
    cbn [bind].
    destruct (row !! "email") as [e|]; [|done].
    destruct (row !! "name") as [n|]; [|done].
    destruct (row !! "has_joined_event") as [j|]; [|done].
    destruct (row !! "Job Title") as [t|]; [|done].
    cbn [bind]. intros H.
    assert (rec = {| m_email := e; m_name := n; m_message := m;
                     m_has_joined_event := j; m_job_title := t |}) as ->
      by congruence.
    done.
  - intros (-> & -> & -> & -> & ->). by destruct rec.
Qed.

Lemma generate_loop_run rows self :
  generate_loop rows self
  = ({| df := df self;
        messages := messages self ++ fst (run_records rows) |},
     snd (run_records rows)).
Proof.
  revert self. induction rows as [|row rows IH]; intros self.
  - simpl. rewrite app_nil_r. by destruct self.
  - cbn [generate_loop run_records].
    unfold mbind, call_generate, liftR, append_message, record_of.
    destruct (generate_personalized_message row) as [m|e]; cbn [bind];
      [|by rewrite app_nil_r; destruct self].
    destruct (getitem row "email") as [em|e]; cbn [bind];
      [|by rewrite app_nil_r; destruct self].
    destruct (getitem row "name") as [n|e]; cbn [bind];
      [|by rewrite app_nil_r; destruct self].
    destruct (getitem row "has_joined_event") as [j|e]; cbn [bind];
      [|by rewrite app_nil_r; destruct self].
    destruct (getitem row "Job Title") as [t|e]; cbn [bind];
      [|by rewrite app_nil_r; destruct self].
    rewrite IH. cbn [df messages fst snd]. by rewrite <- app_assoc.
Qed.

Lemma generate_all_messages_run self :
  generate_all_messages self
  = ({| df := df self; messages := fst (run_records (df self)) |},
     match snd (run_records (df self)) with
     | Ok _ => Ok (fst (run_records (df self)))
     | Raise e => Raise e
     end).
Proof.
  unfold generate_all_messages, mbind, set_messages, get_df, get_messages.
  cbn [df messages]. rewrite generate_loop_run. cbn [df messages app].
  by destruct (snd (run_records (df self))).
Qed.

Lemma run_records_ok rows recs :
  run_records rows = (recs, Ok tt) <-> Forall2 record_for rows recs.
Proof.
  revert recs. induction rows as [|row rows IH]; intros recs; simpl.
  - split.
    + intros [= <-]. constructor.
    + intros H. by inversion H.
  - split.
    + destruct (record_of row) as [rec|e] eqn:E; [|done].
      destruct (run_records rows) as [rs r] eqn:Er. cbn [fst snd].
      intros [= <- ->]. constructor.
      * by apply record_of_record_for.
      * by apply IH.
    + intros H. inversion H as [|? rec ? rs Hrec Hrs]; subst.
      apply record_of_record_for in Hrec. rewrite Hrec.
      apply IH in Hrs. by rewrite Hrs.
Qed.

Lemma run_records_prefix rows :
  exists k, (k <= length rows)%nat
    /\ Forall2 record_for (take k rows) (fst (run_records rows))
    /\ (forall u, snd (run_records rows) = Ok u -> k = length rows).
Proof.
  induction rows as [|row rows (k & Hk & Hrec & Hall)]; simpl.
  - exists 0%nat. split_and!; [lia | constructor | done].
  - destruct (record_of row) as [rec|e] eqn:E.
    + exists (S k). cbn [fst snd take]. split_and!.
      * simpl. lia.
      * constructor; [by apply record_of_record_for | done].
      * intros u Hu. simpl. by rewrite (Hall u Hu).
    + exists 0%nat. split_and!; [lia | constructor | done].
Qed.

Lemma run_records_stop good bad rest recs e :
  Forall2 record_for good recs ->
  record_of bad = Raise e ->
  run_records (good ++ bad :: rest) = (recs, Raise e).
Proof.
  intros H Hbad. induction H as [|row rec good recs Hrec _ IH]; simpl.
  - by rewrite Hbad.
  - apply record_of_record_for in Hrec. by rewrite Hrec, IH.
Qed.

End Records.


(** X8: the call starts from an empty list: what [self.messages] held
    before has no effect, and calling it again gives again the same
    messenger and the same outcome. *)
Theorem generate_all_messages_resets
    (self : Messenger) (old : list MessageRecord) :
  generate_all_messages {| df := df self; messages := old |}
  = generate_all_messages self
  /\ generate_all_messages (fst (generate_all_messages self))
     = generate_all_messages self.
Proof. by rewrite !generate_all_messages_run. Qed.

(** X9: when the rows before some row all have their records and that
    row's message raises, or its message is made but it has no email
    column, the call raises that error and [self.messages] holds the
    records of the rows before it, and no more. *)
Theorem generate_all_messages_stops_at_first_failure
    (self : Messenger) (good rest : list Row) (bad : Row)
    (recs : list MessageRecord) (e : exn) :
  df self = good ++ bad :: rest ->
  Forall2 record_for good recs ->
  generate_personalized_message bad = Raise e
  \/ ((exists m, generate_personalized_message bad = Ok m)
      /\ bad !! "email" = None /\ e = KeyError "email") ->
  generate_all_messages self
  = ({| df := df self; messages := recs |}, Raise e).
Proof.
  intros Hdf Hgood Hbad.
  assert (Hrec : record_of bad = Raise e).
  { unfold record_of, getitem.
    destruct Hbad as [-> | ([m ->] & -> & ->)]; done. }
  rewrite generate_all_messages_run, Hdf.
  by rewrite (run_records_stop good bad rest recs e).
Qed.

Lemma generate_all_messages_stops_at_first_failure_no_email :
  generate_all_messages {| df := [ana; no_email; sam]; messages := [] |}
  = ({| df := df {| df := [ana; no_email; sam]; messages := [] |};
        messages :=
          [ {| m_email := VStr (lit "ana@example.com");
               m_name := VStr (lit "Ana");
               m_message := msg_missed_generic (lit "Ana");
               m_has_joined_event := VBool false;
               m_job_title := VNone |} ] |},
     Raise (KeyError "email")).
Proof.
  apply (generate_all_messages_stops_at_first_failure
           {| df := [ana; no_email; sam]; messages := [] |}
           [ana] [sam] no_email).
  - reflexivity.
  - constructor; [|constructor]. by split_and!.
  - right. split_and!; [by eexists | reflexivity | reflexivity].
Defined.

(** X10: whatever happens, the call leaves [self.df] as it was, and
    [self.messages] ends as the records of the first [k] rows for some
    [k], which is the number of rows when the call returns. *)
Theorem generate_all_messages_keeps_a_prefix (self : Messenger) :
  df (fst (generate_all_messages self)) = df self
  /\ exists k, (k <= length (df self))%nat
       /\ Forall2 record_for (take k (df self))
            (messages (fst (generate_all_messages self)))
       /\ (forall recs, snd (generate_all_messages self) = Ok recs ->
           k = length (df self)).
Proof.
  rewrite generate_all_messages_run. cbn [fst snd df messages].
  split; [done|].
  destruct (run_records_prefix (df self)) as (k & Hk & Hrec & Hall).
  exists k. split_and!; try done.
  intros recs H. destruct (snd (run_records (df self))) as [u|] eqn:E; [|done].
  by apply (Hall u).
Qed.

(** * Further properties of the messenger's outputs *)

Section Cache.

Implicit Types (self : Messenger) (recs : list MessageRecord).

Lemma ensure_messages_cached self :
  messages self <> [] -> ensure_messages self = (self, Ok tt).
Proof.
  intros H. unfold ensure_messages, mbind, get_messages, mret.
  by destruct (messages self).
Qed.

Lemma ensure_messages_fresh self :
  messages self = [] ->
  ensure_messages self
  = ({| df := df self; messages := fst (run_records (df self)) |},
     match snd (run_records (df self)) with
     | Ok _ => Ok tt
     | Raise e => Raise e
     end).
Proof.
  intros H. unfold ensure_messages, mbind, get_messages, mret. rewrite H.
  rewrite generate_all_messages_run.
  by destruct (snd (run_records (df self))).
Qed.

Lemma telegram_batch_after self self' :
  ensure_messages self = (self', Ok tt) ->
  create_telegram_batch self
  = (self', Ok {| tb_bot_name := lit "EventFollowUpBot";
                  tb_total_messages := length (messages self');
                  tb_messages := map telegram_item (messages self') |}).
Proof.
  intros H. unfold create_telegram_batch, mbind. rewrite H.
  by unfold get_messages, mret.
Qed.

Lemma record_for_joined (rows : list Row) recs :
  Forall2 record_for rows recs ->
  Forall2 (fun row v => row !! "has_joined_event" = Some v) rows
          (map m_has_joined_event recs).
Proof.
  induction 1 as [|row rec rows recs (_ & _ & _ & Hj & _) _ IH]; simpl;
    by constructor.
Qed.

Lemma record_for_email (rows : list Row) recs :
  Forall2 record_for rows recs ->
  Forall2 (fun row v => row !! "email" = Some v) rows (map m_email recs).
Proof.
  induction 1 as [|row rec rows recs (_ & He & _) _ IH]; simpl;
    by constructor.
Qed.

End Cache.

(** X11: with no messages held and a record for every row, the batch call
    generates the messages first; the batch then counts one item per row,
    in row order, each with its row's email and tagged ["high"] when the
    row's attendance cell is truthy and ["normal"] otherwise. *)
Theorem telegram_batch_generates_first
    (self : Messenger) (recs : list MessageRecord) :
  messages self = [] ->
  Forall2 record_for (df self) recs ->
  exists batch,
    create_telegram_batch self
    = ({| df := df self; messages := recs |}, Ok batch)
    /\ tb_total_messages batch = length (df self)
    /\ Forall2 (fun row item =>
                  exists j,
                    row !! "has_joined_event" = Some j
                    /\ row !! "email" = Some (t_recipient_email item)
                    /\ generate_personalized_message row
                       = Ok (t_message_text item)
                    /\ t_priority item
                       = (if truthy j then lit "high" else lit "normal"))
               (df self) (tb_messages batch).
Proof.
  intros Hnone Hrecs.
  pose proof (proj2 (run_records_ok _ _) Hrecs) as Hrun.
  assert (Hens : ensure_messages self
                 = ({| df := df self; messages := recs |}, Ok tt)).
  { rewrite (ensure_messages_fresh _ Hnone). by rewrite Hrun. }
  eexists. split_and!.
  - by apply telegram_batch_after.
  - cbn [tb_total_messages messages]. symmetry. by eapply Forall2_length.
  - cbn [tb_messages messages]. apply Forall2_fmap_r.
    eapply Forall2_impl; [exact Hrecs|].
    intros row rec (Hg & He & _ & Hj & _).
    exists (m_has_joined_event rec). by split_and!.
Qed.

Lemma telegram_batch_generates_first_sam_ana :
  exists batch,
    create_telegram_batch {| df := [sam; ana]; messages := [] |}
    = ({| df := df {| df := [sam; ana]; messages := [] |};
          messages :=
            [ {| m_email := VStr (lit "sam@example.com");
                 m_name := VStr (lit "Sam Lee");
                 m_message := msg_joined_title (lit "Sam") (lit "engineer");
                 m_has_joined_event := VBool true;
                 m_job_title := VStr (lit "Engineer") |};
              {| m_email := VStr (lit "ana@example.com");
                 m_name := VStr (lit "Ana");
                 m_message := msg_missed_generic (lit "Ana");
                 m_has_joined_event := VBool false;
                 m_job_title := VNone |} ] |}, Ok batch)
    /\ tb_total_messages batch
       = length (df {| df := [sam; ana]; messages := [] |})
    /\ Forall2 (fun row item =>
                  exists j,
                    row !! "has_joined_event" = Some j
                    /\ row !! "email" = Some (t_recipient_email item)
                    /\ generate_personalized_message row
                       = Ok (t_message_text item)
                    /\ t_priority item
                       = (if truthy j then lit "high" else lit "normal"))
               (df {| df := [sam; ana]; messages := [] |})
               (tb_messages batch).
Proof.
  apply (telegram_batch_generates_first
           {| df := [sam; ana]; messages := [] |}).
  - reflexivity.
  - repeat constructor.
Defined.

(** X12: a batch call whose generation fails after at least one good row
    raises and leaves the records made so far in [self.messages]; the same
    call made again then skips generation and returns a batch of those
    records only, fewer than there are contacts. *)
Theorem telegram_batch_partial_after_failure
    (self : Messenger) (good rest : list Row) (bad : Row)
    (recs : list MessageRecord) (e : exn) :
  messages self = [] ->
  df self = good ++ bad :: rest ->
  good <> [] ->
  Forall2 record_for good recs ->
  generate_personalized_message bad = Raise e ->
  let after := {| df := df self; messages := recs |} in
  create_telegram_batch self = (after, Raise e)
  /\ create_telegram_batch after
     = (after, Ok {| tb_bot_name := lit "EventFollowUpBot";
                     tb_total_messages := length good;
                     tb_messages := map telegram_item recs |})
  /\ (length good < length (df self))%nat.
Proof.
  intros Hnone Hdf Hne Hgood Hbad after.
  assert (Hrec : record_of bad = Raise e).
  { unfold record_of. by rewrite Hbad. }
  pose proof (run_records_stop good bad rest recs e Hgood Hrec) as Hrun.
  split_and!.
  - unfold create_telegram_batch, mbind.
    rewrite (ensure_messages_fresh _ Hnone), Hdf, Hrun. cbn [fst snd].
    by rewrite <- Hdf.
  - assert (Hrecs : recs <> []).
    { destruct Hgood; [done|]. done. }
    rewrite (telegram_batch_after after after).
    + cbn [messages after]. by rewrite (Forall2_length _ _ _ Hgood).
    + by apply ensure_messages_cached.
  - rewrite Hdf, length_app. simpl. lia.
Qed.

Lemma telegram_batch_partial_after_failure_blank :
  let self := {| df := [sam; blank_name; ana]; messages := [] |} in
  let recs :=
    [ {| m_email := VStr (lit "sam@example.com");
         m_name := VStr (lit "Sam Lee");
         m_message := msg_joined_title (lit "Sam") (lit "engineer");
         m_has_joined_event := VBool true;
         m_job_title := VStr (lit "Engineer") |} ] in
  let after := {| df := df self; messages := recs |} in
  create_telegram_batch self = (after, Raise IndexError)
  /\ create_telegram_batch after
     = (after, Ok {| tb_bot_name := lit "EventFollowUpBot";
                     tb_total_messages := length [sam];
                     tb_messages := map telegram_item recs |})
  /\ (length [sam] < length (df self))%nat.
Proof.
  apply (telegram_batch_partial_after_failure
           {| df := [sam; blank_name; ana]; messages := [] |}
           [sam] [ana] blank_name).
  - reflexivity.
  - reflexivity.
  - discriminate.
  - repeat constructor.
  - reflexivity.
Defined.

(** * Further properties of the message queue *)

Section QueueShape.

Implicit Types (self : Automation) (rows : list Row) (col joins : list value)
  (msgs : list LoadedMessage) (items : list QueueItem).

Lemma boolean_index_head rows col e :
  Forall2 (fun row v => row !! "email" = Some v) rows col ->
  head (boolean_index rows (map (fun c => py_eq c e) col))
  = contact_of rows e.
Proof.
  induction 1 as [|row v rows col Hv _ IH]; [done|].
  simpl. rewrite Hv. by destruct (py_eq v e).
Qed.

Lemma index0_head {A} (l : list A) :
  index0 l = match head l with
             | Some x => Ok x
             | None => Raise IndexError
             end.
Proof. by destruct l. Qed.

(** One step of the queue loop, by the contact found. *)
Lemma queue_items_cons self col i msg rest :
  column (a_df self) "email" = Ok col ->
  queue_items self i (msg :: rest)
  = match contact_of (a_df self) (lm_email msg) with
    | None => Raise IndexError
    | Some row =>
        joined <- getitem row "has_joined_event";;
        items <- queue_items self (S i) rest;;
        Ok (queue_item i msg joined :: items)
    end.
Proof.
  intros Hcol. cbn [queue_items]. rewrite Hcol. cbn [bind].
  rewrite index0_head.
  rewrite (boolean_index_head _ col) by by apply column_Forall2.
  by destruct (contact_of _ _).
Qed.

Lemma queue_items_shape self i msgs items :
  queue_items self i msgs = Ok items ->
  exists joins,
    length joins = length msgs /\ items = items_for i msgs joins.
Proof.
  revert i items. induction msgs as [|msg rest IH]; intros i items.
  - intros [= <-]. by exists [].
  - cbn [queue_items].
    destruct (column (a_df self) "email") as [col|]; [|done]. cbn [bind].
    destruct (index0 _) as [row|]; [|done]. cbn [bind].
    destruct (getitem row "has_joined_event") as [j|]; [|done]. cbn [bind].
    destruct (queue_items self (S i) rest) as [tl|] eqn:E; [|done].
    cbn [bind]. intros [= <-].
    destruct (IH _ _ E) as (joins & Hlen & ->).
    exists (j :: joins). split; [simpl; lia | done].
Qed.

Lemma items_for_emails i msgs joins :
  length joins = length msgs ->
  map q_recipient_email (items_for i msgs joins) = map lm_email msgs
  /\ map q_message_text (items_for i msgs joins) = map lm_message msgs.
Proof.
  revert i joins. induction msgs as [|msg msgs IH]; intros i [|j joins];
    simpl; try done.
  intros [= H]. destruct (IH (S i) joins H) as [-> ->].
  unfold queue_item. by destruct (truthy j).
Qed.

Lemma items_for_priorities i msgs joins :
  length joins = length msgs ->
  map q_priority (items_for i msgs joins)
  = map (fun j => if truthy j then lit "high" else lit "normal") joins.
Proof.
  revert i joins. induction msgs as [|msg msgs IH]; intros i [|j joins];
    simpl; try done.
  intros [= H]. rewrite (IH (S i) joins H).
  unfold queue_item. by destruct (truthy j).
Qed.

Lemma items_for_fixed_fields i msgs joins :
  Forall (fun item =>
            q_retry_count item = 0 /\ q_max_retries item = 3
            /\ q_status item = lit "pending"
            /\ q_tags item = [lit "event_followup"; lit "automated"]
            /\ ((q_priority item = lit "high"
                 /\ q_scheduled_delay_minutes item = 0)
                \/ (q_priority item = lit "normal"
                    /\ q_scheduled_delay_minutes item = 30)))
         (items_for i msgs joins).
Proof.
  revert i joins. induction msgs as [|msg msgs IH]; intros i [|j joins];
    simpl; try done.
  constructor; [|apply IH].
  unfold queue_item. destruct (truthy j); simpl; split_and!; auto.
Qed.

Lemma items_for_delays i msgs joins :
  length joins = length msgs ->
  map q_scheduled_delay_minutes (items_for i msgs joins)
  = map (fun j => if truthy j then 0 else 30) joins.
Proof.
  revert i joins. induction msgs as [|msg msgs IH]; intros i [|j joins];
    simpl; try done.
  intros [= H]. rewrite (IH (S i) joins H).
  unfold queue_item. by destruct (truthy j).
Qed.

Lemma queue_items_found self col msgs joins :
  column (a_df self) "email" = Ok col ->
  Forall2 (fun msg j =>
             exists row, contact_of (a_df self) (lm_email msg) = Some row
                         /\ row !! "has_joined_event" = Some j)
          msgs joins ->
  forall i, queue_items self i msgs = Ok (items_for i msgs joins).
Proof.
  intros Hcol Hall.
  induction Hall as [|msg j msgs joins (row & Hrow & Hj) _ IH]; intros i;
    [done|].
  rewrite (queue_items_cons _ col) by done. rewrite Hrow.
  rewrite (getitem_lookup _ _ _ Hj). cbn [bind].
  by rewrite IH.
Qed.

Lemma contact_of_nan rows : contact_of rows VNaN = None.
Proof.
  induction rows as [|row rows IH]; [done|]. simpl.
  destruct (row !! "email") as [[]|]; simpl; done.
Qed.

Lemma queue_items_unknown self col msgs :
  column (a_df self) "email" = Ok col ->
  Forall (fun row => is_Some (row !! "has_joined_event")) (a_df self) ->
  Exists (fun msg => contact_of (a_df self) (lm_email msg) = None
                     \/ lm_email msg = VNaN) msgs ->
  forall i, queue_items self i msgs = Raise IndexError.
Proof.
  intros Hcol Hjoin Hex.
  assert (Hfound : forall e row,
             contact_of (a_df self) e = Some row ->
             is_Some (row !! "has_joined_event")).
  { intros e row H. apply find_some in H as [Hin _].
    rewrite Forall_forall in Hjoin. apply Hjoin. by apply list_elem_of_In. }
  induction Hex as [msg rest Hmsg | msg rest _ IH]; intros i;
    rewrite (queue_items_cons _ col) by done.
  - destruct Hmsg as [-> | ->]; [done|]. by rewrite contact_of_nan.
  - destruct (contact_of _ _) as [row|] eqn:E; [|done].
    destruct (Hfound _ _ E) as [j Hj].
    rewrite (getitem_lookup _ _ _ Hj). cbn [bind]. by rewrite IH.
Qed.

End QueueShape.

(** X13: a queue, when one is produced, has exactly one entry per loaded
    message, in order, with the email and text of its message, retry count
    0, retry cap 3, status ["pending"], the two fixed tags, and either
    priority ["high"] with delay 0 or priority ["normal"] with delay 30;
    its [total_messages] is the number of messages. *)
Theorem queue_is_complete_or_absent (self : Automation) (q : Queue) :
  create_message_queue self = Ok (Some q) ->
  total_messages q = length (a_messages self)
  /\ map q_recipient_email (queue_messages q) = map lm_email (a_messages self)
  /\ map q_message_text (queue_messages q) = map lm_message (a_messages self)
  /\ Forall (fun item =>
               q_retry_count item = 0 /\ q_max_retries item = 3
               /\ q_status item = lit "pending"
               /\ q_tags item = [lit "event_followup"; lit "automated"]
               /\ ((q_priority item = lit "high"
                    /\ q_scheduled_delay_minutes item = 0)
                   \/ (q_priority item = lit "normal"
                       /\ q_scheduled_delay_minutes item = 30)))
            (queue_messages q).
Proof.
  unfold create_message_queue.
  destruct (a_messages self) as [|m0 ms] eqn:Em; [done|]. rewrite <- Em.
  destruct (queue_items self 0 (a_messages self)) as [items|] eqn:E;
    [|done].
  cbn [bind]. intros H.
  assert (q = {| bot_token := lit "YOUR_BOT_TOKEN_HERE";
                 bot_name := lit "EventFollowUpBot";
                 total_messages := length (a_messages self);
                 estimated_send_time :=
                   decimal (length (a_messages self) * 2) ++ lit " seconds";
                 queue_messages := items |}) as -> by congruence.
  cbn [total_messages queue_messages].
  destruct (queue_items_shape _ _ _ _ E) as (joins & Hlen & ->).
  destruct (items_for_emails 0 _ _ Hlen) as [He Hm].
  split_and!; try done. apply items_for_fixed_fields.
Qed.

Lemma queue_is_complete_or_absent_twins :
  exists q,
    create_message_queue twins = Ok (Some q)
    /\ total_messages q = length (a_messages twins)
    /\ map q_recipient_email (queue_messages q)
       = map lm_email (a_messages twins)
    /\ map q_message_text (queue_messages q)
       = map lm_message (a_messages twins)
    /\ Forall (fun item =>
                 q_retry_count item = 0 /\ q_max_retries item = 3
                 /\ q_status item = lit "pending"
                 /\ q_tags item = [lit "event_followup"; lit "automated"]
                 /\ ((q_priority item = lit "high"
                      /\ q_scheduled_delay_minutes item = 0)
                     \/ (q_priority item = lit "normal"
                         /\ q_scheduled_delay_minutes item = 30)))
              (queue_messages q).
Proof.
  eexists. split; [reflexivity|].
  apply (queue_is_complete_or_absent twins). reflexivity.
Defined.

(** X14: the entry of a message takes its priority from the first row of
    the frame whose email equals the message's email: when every message
    has such a row, and that row has an attendance cell, the queue is
    produced with the priorities of those rows in message order. *)
Theorem queue_priority_of_first_match
    (self : Automation) (col joins : list value) :
  a_messages self <> [] ->
  column (a_df self) "email" = Ok col ->
  Forall2 (fun msg j =>
             exists row, contact_of (a_df self) (lm_email msg) = Some row
                         /\ row !! "has_joined_event" = Some j)
          (a_messages self) joins ->
  exists q,
    create_message_queue self = Ok (Some q)
    /\ map q_priority (queue_messages q)
       = map (fun j => if truthy j then lit "high" else lit "normal") joins
    /\ map q_scheduled_delay_minutes (queue_messages q)
       = map (fun j => if truthy j then 0 else 30) joins.
Proof.
  intros Hne Hcol Hall.
  pose proof (queue_items_found _ _ _ _ Hcol Hall 0%nat) as Hitems.
  pose proof (Forall2_length _ _ _ Hall) as Hlen.
  exists {| bot_token := lit "YOUR_BOT_TOKEN_HERE";
            bot_name := lit "EventFollowUpBot";
            total_messages := length (a_messages self);
            estimated_send_time :=
              decimal (length (a_messages self) * 2) ++ lit " seconds";
            queue_messages := items_for 0 (a_messages self) joins |}.
  split_and!.
  - unfold create_message_queue. rewrite Hitems.
    by destruct (a_messages self).
  - cbn [queue_messages]. by apply items_for_priorities.
  - cbn [queue_messages]. by apply items_for_delays.
Qed.

Lemma queue_priority_of_first_match_twins :
  exists q,
    create_message_queue twins = Ok (Some q)
    /\ map q_priority (queue_messages q)
       = map (fun j => if truthy j then lit "high" else lit "normal")
             [VBool true; VBool true]
    /\ map q_scheduled_delay_minutes (queue_messages q)
       = map (fun j => if truthy j then 0 else 30) [VBool true; VBool true].
Proof.
  apply (queue_priority_of_first_match twins
           [VStr (lit "dup@example.com"); VStr (lit "dup@example.com")]
           [VBool true; VBool true]).
  - discriminate.
  - reflexivity.
  - repeat constructor; eexists; split; reflexivity.
Defined.

(** X15: when the frame has the email and attendance columns and some
    message's email is found in no row (a [nan] email never is), the call
    raises [IndexError] and no queue is produced. *)
Theorem queue_raises_on_unknown_email (self : Automation) (col : list value) :
  column (a_df self) "email" = Ok col ->
  Forall (fun row => is_Some (row !! "has_joined_event")) (a_df self) ->
  Exists (fun msg => contact_of (a_df self) (lm_email msg) = None
                     \/ lm_email msg = VNaN)
         (a_messages self) ->
  create_message_queue self = Raise IndexError.
Proof.
  intros Hcol Hjoin Hex.
  unfold create_message_queue.
  rewrite (queue_items_unknown _ col) by done.
  destruct (a_messages self) eqn:E; [|done].
  by apply Exists_nil in Hex.
Qed.

Lemma queue_raises_on_unknown_email_stranger :
  create_message_queue with_stranger = Raise IndexError.
Proof.
  apply (queue_raises_on_unknown_email with_stranger
           [VStr (lit "sam@example.com"); VStr (lit "ana@example.com")]).
  - reflexivity.
  - repeat constructor; by eexists.
  - apply Exists_cons_tl, Exists_cons_hd. left. reflexivity.
Defined.

Section QueueIds.

Implicit Types (s : pystr) (d : Decimal.uint).








End QueueIds.



(** * The priority groups of the simulation *)

Section Groups.

Implicit Types (self : Automation) (rows : list Row) (col js : list value)
  (msgs high normal : list LoadedMessage).

Lemma mask_select_head rows col js e :
  Forall2 (fun row v => row !! "email" = Some v) rows col ->
  Forall2 (fun row v => row !! "has_joined_event" = Some v) rows js ->
  head (mask_select js (map (fun c => py_eq c e) col))
  = match contact_of rows e with
    | Some row => row !! "has_joined_event"
    | None => None
    end.
Proof.
  intros Hc. revert js. induction Hc as [|row v rows col Hv _ IH];
    intros js Hj.
  - by inversion Hj.
  - inversion Hj as [|? j ? js' Hrow Hjs]; subst. simpl. rewrite Hv.
    destruct (py_eq v e); [done|]. by apply IH.
Qed.

(** The attendance cell the simulation reads for a message is the one of
    the first row with the message's email. *)
Lemma joined_of_contact self col js msg :
  column (a_df self) "email" = Ok col ->
  column (a_df self) "has_joined_event" = Ok js ->
  joined_of self msg
  = match contact_of (a_df self) (lm_email msg) with
    | Some row => getitem row "has_joined_event"
    | None => Raise IndexError
    end.
Proof.
  intros Hcol Hjs. unfold joined_of. rewrite Hcol, Hjs. cbn [bind].
  rewrite index0_head.
  rewrite (mask_select_head (a_df self) col js _
             (proj1 (column_Forall2 _ _ _) Hcol)
             (proj1 (column_Forall2 _ _ _) Hjs)).
  destruct (contact_of _ _) as [row|] eqn:E; [|done].
  apply find_some in E as [Hin _]. apply list_elem_of_In in Hin.
  apply list_elem_of_lookup in Hin as [k Hk].
  destruct (Forall2_lookup_l _ _ _ _ _
              (proj1 (column_Forall2 _ _ _) Hjs) Hk) as (j & _ & Hj).
  by rewrite (getitem_lookup _ _ _ Hj), Hj.
Qed.

Lemma select_by_partition self msgs high normal :
  select_by self true msgs = Ok high ->
  select_by self false msgs = Ok normal ->
  high ++ normal ≡ₚ msgs
  /\ high `sublist_of` msgs /\ normal `sublist_of` msgs.
Proof.
  revert high normal. induction msgs as [|msg rest IH]; intros high normal.
  - intros [= <-] [= <-]. split_and!; done.
  - cbn [select_by].
    destruct (joined_of self msg) as [j|]; [|done]. cbn [bind].
    destruct (select_by self true rest) as [h|]; [|done].
    destruct (select_by self false rest) as [n|]; [|done].
    cbn [bind]. destruct (IH h n eq_refl eq_refl) as (Hp & Hh & Hn).
    destruct (truthy j); cbn [Bool.eqb]; intros [= <-] [= <-].
    + split_and!.
      * simpl. by constructor.
      * by constructor.
      * by apply sublist_cons.
    + split_and!.
      * rewrite <- Permutation_middle. by constructor.
      * by apply sublist_cons.
      * by constructor.
Qed.

(** The loop of the queue and the comprehensions of the simulation read
    the same attendance cells. *)
Lemma select_by_queue_items self col js msgs :
  column (a_df self) "email" = Ok col ->
  column (a_df self) "has_joined_event" = Ok js ->
  forall i items,
    queue_items self i msgs = Ok items ->
    exists high normal,
      select_by self true msgs = Ok high
      /\ select_by self false msgs = Ok normal
      /\ map lm_email high
         = map q_recipient_email
             (filter (fun it => q_priority it = lit "high") items)
      /\ map lm_email normal
         = map q_recipient_email
             (filter (fun it => q_priority it = lit "normal") items).
Proof.
  intros Hcol Hjs. induction msgs as [|msg rest IH]; intros i items.
  - intros [= <-]. by exists [], [].
  - rewrite (queue_items_cons _ col) by done.
    cbn [select_by]. rewrite (joined_of_contact _ col js) by done.
    destruct (contact_of _ _) as [row|]; [|done].
    destruct (getitem row "has_joined_event") as [j|]; [|done]. cbn [bind].
    destruct (queue_items self (S i) rest) as [tl|] eqn:E; [|done].
    cbn [bind]. intros [= <-].
    destruct (IH _ _ E) as (h & n & -> & -> & Hh & Hn). cbn [bind].
    unfold queue_item. destruct (truthy j); cbn [Bool.eqb].
    + exists (msg :: h), n. split_and!; try done.
      rewrite filter_cons_True by done. simpl. by rewrite Hh.
    + exists h, (msg :: n). split_and!; try done.
      rewrite filter_cons_True by done. simpl. by rewrite Hn.
Qed.

End Groups.

(** X17: the two groups of the simulation split the loaded messages:
    every message is in exactly one of them (together they are a
    rearrangement of the list) and each group keeps the order of the
    list. *)
Theorem simulation_groups_split_messages
    (self : Automation) (high normal : list LoadedMessage) :
  simulate_telegram_groups self = Ok (Some (high, normal)) ->
  high ++ normal ≡ₚ a_messages self
  /\ high `sublist_of` a_messages self
  /\ normal `sublist_of` a_messages self
  /\ (length high + length normal = length (a_messages self))%nat.
Proof.
  unfold simulate_telegram_groups.
  destruct (a_messages self) as [|m0 ms] eqn:Em; [done|]. rewrite <- Em.
  destruct (select_by self true (a_messages self)) as [h|] eqn:Eh; [|done].
  destruct (select_by self false (a_messages self)) as [n|] eqn:En; [|done].
  cbn [bind]. intros [= <- <-].
  destruct (select_by_partition _ _ _ _ Eh En) as (Hp & Hh & Hn).
  split_and!; try done.
  by rewrite <- Hp, length_app.
Qed.

Lemma simulation_groups_split_messages_sam_and_ana :
  let high := [ {| lm_email := VStr (lit "sam@example.com");
                   lm_message := VStr (lit "to Sam") |} ] in
  let normal := [ {| lm_email := VStr (lit "ana@example.com");
                     lm_message := VStr (lit "to Ana") |} ] in
  high ++ normal ≡ₚ a_messages sam_and_ana
  /\ high `sublist_of` a_messages sam_and_ana
  /\ normal `sublist_of` a_messages sam_and_ana
  /\ (length high + length normal = length (a_messages sam_and_ana))%nat.
Proof.
  apply (simulation_groups_split_messages sam_and_ana). reflexivity.
Defined.

(** X18: on a frame with the email and attendance columns, whenever the
    queue is produced the simulation forms its groups too, and they agree
    with the queue: the high group lists, in order, the recipients of the
    entries queued ["high"], and the normal group those queued
    ["normal"]. *)
Theorem simulation_groups_match_queue
    (self : Automation) (col js : list value) (q : Queue) :
  column (a_df self) "email" = Ok col ->
  column (a_df self) "has_joined_event" = Ok js ->
  create_message_queue self = Ok (Some q) ->
  exists high normal,
    simulate_telegram_groups self = Ok (Some (high, normal))
    /\ map lm_email high
       = map q_recipient_email
           (filter (fun it => q_priority it = lit "high") (queue_messages q))
    /\ map lm_email normal
       = map q_recipient_email
           (filter (fun it => q_priority it = lit "normal")
                   (queue_messages q)).
Proof.
  intros Hcol Hjs. unfold create_message_queue, simulate_telegram_groups.
  destruct (a_messages self) as [|m0 ms] eqn:Em; [done|]. rewrite <- Em.
  destruct (queue_items self 0 (a_messages self)) as [items|] eqn:E;
    [|done].
  cbn [bind]. intros H.
  assert (queue_messages q = items) as -> by (injection H as <-; done).
  destruct (select_by_queue_items _ _ _ _ Hcol Hjs _ _ E)
    as (high & normal & -> & -> & Hh & Hn).
  by exists high, normal.
Qed.

Lemma simulation_groups_match_queue_twins :
  exists q high normal,
    create_message_queue twins = Ok (Some q)
    /\ simulate_telegram_groups twins = Ok (Some (high, normal))
    /\ map lm_email high
       = map q_recipient_email
           (filter (fun it => q_priority it = lit "high") (queue_messages q))
    /\ map lm_email normal
       = map q_recipient_email
           (filter (fun it => q_priority it = lit "normal")
                   (queue_messages q)).
Proof.
  eexists.
  destruct (simulation_groups_match_queue twins
              [VStr (lit "dup@example.com"); VStr (lit "dup@example.com")]
              [VBool true; VBool false] _ eq_refl eq_refl eq_refl)
    as (high & normal & H).
  exists high, normal. split; [reflexivity | exact H].
Defined.

(** * The saved table, the queue and the batch *)

(** X19: for a messenger with no messages held, a record for every row
    and distinct string emails, the table that [save_messages_csv] hands to
    the writer has one line per row; the queue built from that table over
    the same frame and the batch of [create_telegram_batch] then list the
    same recipients with the same texts and the same priorities. *)
Theorem saved_table_queue_matches_batch
    (self : Messenger) (recs : list MessageRecord) :
  messages self = [] ->
  recs <> [] ->
  Forall2 record_for (df self) recs ->
  NoDup (map m_email recs) ->
  Forall (fun rec => is_str (m_email rec) = true) recs ->
  exists batch q,
    save_messages_csv self
    = ({| df := df self; messages := recs |}, Ok (map csv_record recs))
    /\ create_telegram_batch self
       = ({| df := df self; messages := recs |}, Ok batch)
    /\ create_message_queue
         {| a_df := df self; a_messages := map csv_record recs |}
       = Ok (Some q)
    /\ map q_recipient_email (queue_messages q)
       = map t_recipient_email (tb_messages batch)
    /\ map q_message_text (queue_messages q)
       = map (fun it => VStr (t_message_text it)) (tb_messages batch)
    /\ map q_priority (queue_messages q)
       = map t_priority (tb_messages batch).
Proof.
  intros Hnone Hne Hrecs Hnd Hstr.
  pose proof (proj2 (run_records_ok _ _) Hrecs) as Hrun.
  assert (Hens : ensure_messages self
                 = ({| df := df self; messages := recs |}, Ok tt)).
  { rewrite (ensure_messages_fresh _ Hnone). by rewrite Hrun. }
  set (auto := {| a_df := df self; a_messages := map csv_record recs |}).
  assert (Hemails : map lm_email (map csv_record recs) = map m_email recs).
  { by rewrite <- list_fmap_compose. }
  assert (Hcol : column (a_df auto) "email" = Ok (map m_email recs)).
  { apply column_Forall2. by apply record_for_email. }
  assert (Hjoin : column (a_df auto) "has_joined_event"
                  = Ok (map m_has_joined_event recs)).
  { apply column_Forall2. by apply record_for_joined. }
  assert (Hitems : queue_items auto 0 (map csv_record recs)
                   = Ok (items_for 0 (map csv_record recs)
                           (map m_has_joined_event recs))).
  { apply (queue_items_aligned auto (map m_email recs)
             (map m_has_joined_event recs)); try done.
    by apply Forall_fmap. }
  assert (Hlen : length (map m_has_joined_event recs)
                 = length (map csv_record recs)).
  { by rewrite !length_map. }
  destruct (items_for_emails 0 _ _ Hlen) as [He Hm].
  eexists _, {| bot_token := lit "YOUR_BOT_TOKEN_HERE";
                bot_name := lit "EventFollowUpBot";
                total_messages := length (a_messages auto);
                estimated_send_time :=
                  decimal (length (a_messages auto) * 2) ++ lit " seconds";
                queue_messages :=
                  items_for 0 (map csv_record recs)
                    (map m_has_joined_event recs) |}.
  split_and!.
  - unfold save_messages_csv, mbind. rewrite Hens.
    by unfold get_messages, mret.
  - by apply telegram_batch_after.
  - unfold create_message_queue. cbn [a_messages auto]. rewrite Hitems.
    destruct recs; done.
  - cbn [queue_messages tb_messages messages]. rewrite He, Hemails.
    by rewrite <- list_fmap_compose.
  - cbn [queue_messages tb_messages messages]. rewrite Hm.
    by rewrite <- !list_fmap_compose.
  - cbn [queue_messages tb_messages messages].
    rewrite (items_for_priorities 0 _ _ Hlen).
    by rewrite <- !list_fmap_compose.
Qed.

Lemma saved_table_queue_matches_batch_sam_ana :
  let self := {| df := [sam; ana]; messages := [] |} in
  let recs :=
    [ {| m_email := VStr (lit "sam@example.com");
         m_name := VStr (lit "Sam Lee");
         m_message := msg_joined_title (lit "Sam") (lit "engineer");
         m_has_joined_event := VBool true;
         m_job_title := VStr (lit "Engineer") |};
      {| m_email := VStr (lit "ana@example.com");
         m_name := VStr (lit "Ana");
         m_message := msg_missed_generic (lit "Ana");
         m_has_joined_event := VBool false;
         m_job_title := VNone |} ] in
  exists batch q,
    save_messages_csv self
    = ({| df := df self; messages := recs |}, Ok (map csv_record recs))
    /\ create_telegram_batch self
       = ({| df := df self; messages := recs |}, Ok batch)
    /\ create_message_queue
         {| a_df := df self; a_messages := map csv_record recs |}
       = Ok (Some q)
    /\ map q_recipient_email (queue_messages q)
       = map t_recipient_email (tb_messages batch)
    /\ map q_message_text (queue_messages q)
       = map (fun it => VStr (t_message_text it)) (tb_messages batch)
    /\ map q_priority (queue_messages q)
       = map t_priority (tb_messages batch).
Proof.
  apply (saved_table_queue_matches_batch
           {| df := [sam; ana]; messages := [] |}).
  - reflexivity.
  - discriminate.
  - repeat constructor.
  - apply NoDup_cons. split.
    + rewrite list_elem_of_singleton. discriminate.
    + apply NoDup_singleton.
  - repeat constructor.
Defined.

(** * Further properties of [send_email_smtp] *)

Section SmtpSession.

Context {World : Type}.
Variable login : World -> value -> value -> World * result unit.
Variable sendmail : World -> value -> value -> value -> World * result unit.
Variable quit : World -> World * result unit.

Implicit Types (r : Run World) (self : Messenger) (msgs : list MessageRecord).

Lemma show_examples_run msgs r :
  show_examples World msgs r
  = ({| world := world r;
        out := out r ++ map (fun msg => EExample (m_email msg)) msgs;
        successful_sends := successful_sends r;
        failed_sends := failed_sends r |}, Ok tt).
Proof.
  revert r. induction msgs as [|msg rest IH]; intros r.
  - simpl. rewrite app_nil_r. by destruct r.
  - cbn [show_examples]. unfold mbind at 1. unfold say at 1.
    rewrite IH. cbn [world out successful_sends failed_sends map].
    by rewrite <- app_assoc.
Qed.

(** X20: in test mode the call shows the first three records at most,
    prints how many more there are as the number of records minus 3 (a
    negative number when there are fewer than three), returns [True], and
    does not touch the server or the counters. *)
Theorem send_email_smtp_test_mode
    (self self' : Messenger) (sender_email sender_password : value) r :
  ensure_messages self = (self', Ok tt) ->
  send_email_smtp World login sendmail quit sender_email sender_password
    true self r
  = (self',
     {| world := world r;
        out := out r
               ++ ETestMode
                  :: map (fun msg => EExample (m_email msg))
                         (take 3 (messages self'))
               ++ [EMore (Z.of_nat (length (messages self')) - 3)%Z];
        successful_sends := successful_sends r;
        failed_sends := failed_sends r |},
     Ok true).
Proof.
  intros Hens. unfold send_email_smtp. rewrite Hens.
  unfold smtp_session. unfold mbind at 1. unfold say at 1.
  unfold mbind at 1. rewrite show_examples_run.
  unfold mbind, say, mret.
  cbn [world out successful_sends failed_sends].
  by rewrite <- !app_assoc.
Qed.

(** X21: a live call offers no message to the server when generation
    raises (the error escapes and the server is not contacted), when a
    credential is missing (it prints so and returns [False]), or when the
    login raises (it prints the server error and returns [False]). *)
Theorem send_email_smtp_stops_before_sending
    (self self' : Messenger) (sender_email sender_password : value)
    (e : exn) r (w1 : World) :
  (ensure_messages self = (self', Raise e) ->
   forall test_mode,
     send_email_smtp World login sendmail quit sender_email sender_password
       test_mode self r = (self', r, Raise e))
  /\ (ensure_messages self = (self', Ok tt) ->
      truthy sender_email = false \/ truthy sender_password = false ->
      send_email_smtp World login sendmail quit sender_email sender_password
        false self r
      = (self',
         {| world := world r; out := out r ++ [ECredentialsRequired];
            successful_sends := successful_sends r;
            failed_sends := failed_sends r |}, Ok false))
  /\ (ensure_messages self = (self', Ok tt) ->
      truthy sender_email = true -> truthy sender_password = true ->
      login (world r) sender_email sender_password = (w1, Raise e) ->
      send_email_smtp World login sendmail quit sender_email sender_password
        false self r
      = (self',
         {| world := w1; out := out r ++ [EServerError e];
            successful_sends := successful_sends r;
            failed_sends := failed_sends r |}, Ok false)).
Proof.
  split_and!.
  - intros Hens test_mode. unfold send_email_smtp. by rewrite Hens.
  - intros Hens Hmiss. unfold send_email_smtp. rewrite Hens.
    unfold smtp_session.
    assert (negb (truthy sender_email) || negb (truthy sender_password)
            = true) as ->.
    { destruct Hmiss as [-> | ->]; [done|]. apply orb_true_r. }
    by unfold mbind, say, mret.
  - intros Hens Hse Hsp Hlogin. unfold send_email_smtp. rewrite Hens.
    unfold smtp_session. rewrite Hse, Hsp. cbn [negb orb].
    unfold try_, mbind at 1. unfold on_world at 1. rewrite Hlogin.
    by unfold mbind, say, mret.
Qed.

(** X22: a live call that logs in offers every record to the server, in
    order, whatever the earlier outcomes; each outcome is printed, only
    the deliveries are counted, and the report gives that count out of the
    number of records when [quit] returns; when [quit] raises, the server
    error is printed instead and the call returns [False]. *)
Theorem send_email_smtp_offers_every_record
    (self self' : Messenger) (sender_email sender_password : value)
    (w0 w1 : World) :
  ensure_messages self = (self', Ok tt) ->
  truthy sender_email = true ->
  truthy sender_password = true ->
  login w0 sender_email sender_password = (w1, Ok tt) ->
  exists new outcomes w2,
    deliveries sendmail sender_email (map record_pair (messages self')) w1
    = (outcomes, w2)
    /\ recipients new = map m_email (messages self')
    /\ length (filter (fun ev => is_failed ev = true) new)
       = count_raise outcomes
    /\ length (filter (fun ev => is_sent ev = true) new) = count_ok outcomes
    /\ send_email_smtp World login sendmail quit sender_email
         sender_password false self (start w0)
       = match quit w2 with
         | (w3, Ok _) =>
             (self',
              {| world := w3;
                 out := new ++ [EReport (count_ok outcomes)
                                        (length (messages self'))];
                 successful_sends := count_ok outcomes;
                 failed_sends := 0 |}, Ok true)
         | (w3, Raise e) =>
             (self',
              {| world := w3; out := new ++ [EServerError e];
                 successful_sends := count_ok outcomes;
                 failed_sends := 0 |}, Ok false)
         end.
Proof.
  intros Hens Hse Hsp Hlogin.
  destruct (smtp_session_isolates login sendmail quit (messages self')
              sender_email sender_password w0 w1 Hse Hsp Hlogin)
    as (new & Hrec & Hfail & Hsum & Hrun).
  destruct (deliveries sendmail sender_email
              (map record_pair (messages self')) w1) as [outcomes w2] eqn:Ed.
  cbn [fst snd] in *.
  exists new, outcomes, w2. split_and!; try done.
  - assert (Hlen : (length (filter (fun ev => is_sent ev = true) new)
                    + length (filter (fun ev => is_failed ev = true) new)
                    = length (recipients new))%nat).
    { clear. induction new as [|ev new IH]; [done|].
      destruct ev; simpl;
        rewrite ?filter_cons_True, ?filter_cons_False by done;
        simpl; lia. }
    pose proof (deliveries_length sendmail sender_email
                  (map record_pair (messages self')) w1) as Hd.
    rewrite Ed in Hd. cbn [fst] in Hd.
    pose proof (count_ok_raise outcomes) as Hc.
    rewrite Hrec, Hfail, !length_map in *. lia.
  - unfold send_email_smtp. rewrite Hens, Hrun.
    by destruct (quit w2) as [w3 [[]|e]].
Qed.

End SmtpSession.

Lemma send_email_smtp_test_mode_sam :
  send_email_smtp unit accept_login accept_all quit_ok VNone VNone true
    {| df := [sam]; messages := [] |} (start tt)
  = ({| df := [sam];
        messages :=
          [ {| m_email := VStr (lit "sam@example.com");
               m_name := VStr (lit "Sam Lee");
               m_message := msg_joined_title (lit "Sam") (lit "engineer");
               m_has_joined_event := VBool true;
               m_job_title := VStr (lit "Engineer") |} ] |},
     {| world := world (start tt);
        out := out (start tt)
               ++ ETestMode
                  :: map (fun msg => EExample (m_email msg))
                         (take 3
                            (messages
                               {| df := [sam];
                                  messages :=
                                    [ {| m_email := VStr (lit "sam@example.com");
                                         m_name := VStr (lit "Sam Lee");
                                         m_message :=
                                           msg_joined_title (lit "Sam")
                                             (lit "engineer");
                                         m_has_joined_event := VBool true;
                                         m_job_title :=
                                           VStr (lit "Engineer") |} ] |}))
               ++ [EMore (Z.of_nat 1 - 3)%Z];
        successful_sends := successful_sends (start tt);
        failed_sends := failed_sends (start tt) |},
     Ok true).
Proof.
  apply (send_email_smtp_test_mode accept_login accept_all quit_ok
           {| df := [sam]; messages := [] |}).
  reflexivity.
Defined.

Example test_mode_with_one_message :
  out (snd (fst (send_email_smtp unit accept_login accept_all quit_ok
                   VNone VNone true {| df := [sam]; messages := [] |}
                   (start tt))))
  = [ETestMode; EExample (VStr (lit "sam@example.com")); EMore (-2)%Z].
Proof. reflexivity. Qed.

Lemma send_email_smtp_stops_before_sending_refused :
  let self := {| df := [sam]; messages := [] |} in
  let self' :=
    {| df := [sam];
       messages :=
         [ {| m_email := VStr (lit "sam@example.com");
              m_name := VStr (lit "Sam Lee");
              m_message := msg_joined_title (lit "Sam") (lit "engineer");
              m_has_joined_event := VBool true;
              m_job_title := VStr (lit "Engineer") |} ] |} in
  send_email_smtp unit login_refused accept_all quit_ok
    (VStr (lit "me@example.com")) (VStr (lit "app-password")) false self
    (start tt)
  = (self',
     {| world := tt; out := out (start tt) ++ [EServerError SMTPException];
        successful_sends := successful_sends (start tt);
        failed_sends := failed_sends (start tt) |}, Ok false).
Proof.
  apply (send_email_smtp_stops_before_sending login_refused accept_all quit_ok
           {| df := [sam]; messages := [] |} _
           (VStr (lit "me@example.com")) (VStr (lit "app-password"))
           SMTPException (start tt) tt); reflexivity.
Defined.

Lemma send_email_smtp_offers_every_record_refuse_missing :
  let self := {| df := [sam; <["email" := VNaN]> ana]; messages := [] |} in
  exists self' new outcomes w2,
    ensure_messages self = (self', Ok tt)
    /\ deliveries refuse_missing (VStr (lit "me@example.com"))
         (map record_pair (messages self')) tt = (outcomes, w2)
    /\ recipients new = map m_email (messages self')
    /\ length (filter (fun ev => is_failed ev = true) new)
       = count_raise outcomes
    /\ length (filter (fun ev => is_sent ev = true) new) = count_ok outcomes
    /\ send_email_smtp unit accept_login refuse_missing quit_ok
         (VStr (lit "me@example.com")) (VStr (lit "app-password")) false
         self (start tt)
       = match quit_ok w2 with
         | (w3, Ok _) =>
             (self',
              {| world := w3;
                 out := new ++ [EReport (count_ok outcomes)
                                        (length (messages self'))];
                 successful_sends := count_ok outcomes;
                 failed_sends := 0 |}, Ok true)
         | (w3, Raise e) =>
             (self',
              {| world := w3; out := new ++ [EServerError e];
                 successful_sends := count_ok outcomes;
                 failed_sends := 0 |}, Ok false)
         end.
Proof.
  intros self. exists (fst (ensure_messages self)).
  assert (Hens : ensure_messages self = (fst (ensure_messages self), Ok tt))
    by reflexivity.
  destruct (send_email_smtp_offers_every_record accept_login refuse_missing
              quit_ok self (fst (ensure_messages self))
              (VStr (lit "me@example.com")) (VStr (lit "app-password"))
              tt tt Hens eq_refl eq_refl eq_refl)
    as (new & outcomes & w2 & H).
  exists new, outcomes, w2. split; [exact Hens | exact H].
Defined.

(** * Further properties of [send_batch_emails] *)

Section BatchMore.

Context {World : Type}.
Variable login : World -> value -> value -> World * result unit.
Variable sendmail : World -> value -> value -> value -> World * result unit.
Variable quit : World -> World * result unit.

Implicit Types (r : Run World) (msgs : list LoadedMessage) (w : World).


Lemma would_recipients_app (l k : list event) :
  would_recipients (l ++ k) = would_recipients l ++ would_recipients k.
Proof.
  induction l as [|e l IH]; simpl; [done|].
  destruct e; simpl; by rewrite ?IH.
Qed.


(** The dry-run loop never touches the server or the counters, and never
    prints a delivery line, whatever the batch size. *)
Lemma dry_run_loop_offline n (batch_size delay : N) msgs :
  forall i r,
  exists log,
    fst (dry_run_loop World n batch_size delay i msgs r)
    = {| world := world r; out := out r ++ log;
         successful_sends := successful_sends r;
         failed_sends := failed_sends r |}
    /\ recipients log = [].
Proof.
  induction msgs as [|msg rest IH]; intros i r.
  - exists []. simpl. rewrite app_nil_r. by destruct r.
  - cbn [dry_run_loop]. unfold mbind at 1. unfold say at 1.
    unfold mbind at 1. unfold liftR, py_mod.
    destruct (batch_size =? 0).
    + exists [EWouldSend (i + 1) n (lm_email msg)]. done.
    + unfold mbind at 1.
      destruct (_ =? 0); unfold say, mret;
        cbn [world out successful_sends failed_sends];
        match goal with
        | |- context [dry_run_loop _ _ _ _ _ _ ?r1] =>
            destruct (IH (S i) r1) as (log & Hrun & Hnone)
        end;
        rewrite Hrun; cbn [world out successful_sends failed_sends].
      * exists (EWouldSend (i + 1) n (lm_email msg)
                :: EWouldPause delay :: log).
        split; [by rewrite <- !app_assoc | done].
      * exists (EWouldSend (i + 1) n (lm_email msg) :: log).
        split; [by rewrite <- !app_assoc | done].
Qed.

Lemma batch_loop_total sender n (batch_size delay : N) msgs :
  forall i r,
    snd (batch_loop World sendmail sender n batch_size delay i msgs r) = Ok tt.
Proof.
  induction msgs as [|msg rest IH]; intros i r; [done|].
  cbn [batch_loop]. unfold mbind at 1.
  assert (Hstep : snd (batch_attempt World sendmail sender n batch_size
                         delay i msg r) = Ok tt).
  { unfold batch_attempt, try_, mbind, on_world, count_success,
      count_failure, say, liftR, py_mod, mret.
    destruct (sendmail _ _ _ _) as [w1 [[]|e]]; [|done].
    destruct (batch_size =? 0); [done|].
    by destruct (_ && _). }
  destruct (batch_attempt _ _ _ _ _ _ _ _ r) as [r1 res].
  cbn [snd] in Hstep. subst res. apply IH.
Qed.

(** A live call whose gates all pass: what is printed and returned after
    the loop. *)
Lemma send_batch_emails_live (self : Automation)
    (env_email env_password : pystr) (sender_email sender_password : value)
    (batch_size delay : N) (w0 w1 w2 w3 : World) (r1 : Run World) :
  a_messages self <> [] ->
  truthy (py_or sender_email (VStr env_email)) = true ->
  truthy (py_or sender_password (VStr env_password)) = true ->
  login w0 (py_or sender_email (VStr env_email))
    (py_or sender_password (VStr env_password)) = (w1, Ok tt) ->
  quit w1 = (w2, Ok tt) ->
  login w2 (py_or sender_email (VStr env_email))
    (py_or sender_password (VStr env_password)) = (w3, Ok tt) ->
  batch_loop World sendmail (py_or sender_email (VStr env_email))
    (length (a_messages self)) batch_size delay 0 (a_messages self)
    {| world := w3; out := [EStarting]; successful_sends := 0;
       failed_sends := 0 |} = (r1, Ok tt) ->
  send_batch_emails World login sendmail quit self env_email env_password
    sender_email sender_password batch_size delay false (start w0)
  = match quit (world r1) with
    | (w5, Ok _) =>
        ({| world := w5;
            out := out r1
                   ++ [ESummary (successful_sends r1) (failed_sends r1)];
            successful_sends := successful_sends r1;
            failed_sends := failed_sends r1 |},
         Ok (0 <? successful_sends r1)%nat)
    | (w5, Raise e) =>
        ({| world := w5; out := out r1 ++ [EServerError e];
            successful_sends := successful_sends r1;
            failed_sends := failed_sends r1 |}, Ok false)
    end.
Proof.
  intros Hne Hse Hsp Hval Hquit Hlogin Hrun.
  set (se := py_or sender_email (VStr env_email)) in *.
  set (sp := py_or sender_password (VStr env_password)) in *.
  unfold send_batch_emails.
  destruct (a_messages self) as [|m0 ms] eqn:Em; [done|].
  rewrite <- Em in *. fold se sp. rewrite Hse, Hsp. cbn [negb orb].
  unfold mbind at 1. unfold validate_email_setup, try_ at 1.
  unfold mbind at 1. unfold on_world at 1, start. cbn [world].
  rewrite Hval. cbn [world out successful_sends failed_sends].
  unfold mbind at 1. unfold on_world at 1. cbn [world]. rewrite Hquit.
  cbn [world out successful_sends failed_sends mret negb].
  unfold mbind at 1. unfold say at 1.
  cbn [world out successful_sends failed_sends app].
  unfold mbind at 1. unfold try_ at 1. unfold mbind at 1.
  unfold on_world at 1. cbn [world]. rewrite Hlogin.
  cbn [world out successful_sends failed_sends].
  unfold mbind at 1. rewrite Hrun.
  unfold mbind, on_world, get_counts, say, mret.
  destruct (quit (world r1)) as [w5 [[]|e]];
    by cbn [negb world out successful_sends failed_sends fst snd].
Qed.

(** One pass through the [try] statement with batch size 0: a delivery
    that succeeds is counted, then the modulo raises and the same message
    is counted as failed as well. *)
Lemma batch_attempt_zero sender n (delay : N) i msg r :
  exists line,
    batch_attempt World sendmail sender n 0 delay i msg r
    = ({| world := fst (sendmail (world r) sender (lm_email msg)
                          (lm_message msg));
          out := out r ++ line;
          successful_sends :=
            successful_sends r
            + (if is_ok (snd (sendmail (world r) sender (lm_email msg)
                                (lm_message msg))) then 1 else 0);
          failed_sends := failed_sends r + 1 |},
       Ok tt)
    /\ length (filter (fun e => is_failed e = true) line) = 1%nat.
Proof.
  unfold batch_attempt, try_, mbind, on_world, count_success,
    count_failure, say, liftR, py_mod, mret.
  destruct (sendmail (world r) sender (lm_email msg) (lm_message msg))
    as [w1 [[]|e]]; simpl.
  - exists [ESent (i + 1) n (lm_email msg);
            EFailed (i + 1) n (lm_email msg) ZeroDivisionError].
    split; [|done]. rewrite <- app_assoc. do 2 f_equal; lia.
  - exists [EFailed (i + 1) n (lm_email msg) e].
    split; [|done]. do 2 f_equal; lia.
Qed.

Lemma batch_loop_zero sender n (delay : N) msgs :
  forall i r,
  exists new,
    batch_loop World sendmail sender n 0 delay i msgs r
    = ({| world := snd (deliveries sendmail sender (map loaded_pair msgs)
                          (world r));
          out := out r ++ new;
          successful_sends :=
            successful_sends r
            + count_ok (fst (deliveries sendmail sender
                               (map loaded_pair msgs) (world r)));
          failed_sends := failed_sends r + length msgs |},
       Ok tt)
    /\ length (filter (fun e => is_failed e = true) new) = length msgs.
Proof.
  induction msgs as [|msg rest IH]; intros i r.
  - exists []. simpl. unfold mret, count_ok. simpl.
    rewrite app_nil_r, !Nat.add_0_r. by destruct r.
  - destruct (batch_attempt_zero sender n delay i msg r)
      as (line & Hstep & Hfail1).
    cbn [batch_loop map]. unfold loaded_pair at 1 3.
    rewrite deliveries_cons. cbn [fst snd].
    rewrite count_ok_cons.
    unfold mbind at 1. rewrite Hstep.
    match goal with
    | |- context [batch_loop _ _ _ _ _ _ _ _ ?r1] =>
        destruct (IH (S i) r1) as (new & Hrun & Hfail)
    end.
    cbn [world out successful_sends failed_sends] in Hrun.
    exists (line ++ new). rewrite Hrun. split.
    + f_equal. f_equal; [by rewrite app_assoc | lia | simpl; lia].
    + rewrite filter_app, length_app, Hfail1, Hfail. done.
Qed.


(** X24: a dry run with batch size 0 prints the header and the first
    "would send" line and then raises [ZeroDivisionError]; the error is
    not caught. *)
Theorem send_batch_emails_dry_run_zero (self : Automation)
    (env_email env_password : pystr) (sender_email sender_password : value)
    (delay : N) (m0 : LoadedMessage) (rest : list LoadedMessage) r :
  a_messages self = m0 :: rest ->
  send_batch_emails World login sendmail quit self env_email env_password
    sender_email sender_password 0 delay true r
  = ({| world := world r;
        out := out r ++ [EDryRun (S (length rest)) 0 delay;
                         EWouldSend 1 (S (length rest)) (lm_email m0)];
        successful_sends := successful_sends r;
        failed_sends := failed_sends r |}, Raise ZeroDivisionError).
Proof.
  intros Hm. unfold send_batch_emails. rewrite Hm.
  cbn [length dry_run_loop].
  unfold mbind, say, liftR, py_mod.
  cbn [world out successful_sends failed_sends N.eqb].
  by rewrite <- app_assoc.
Qed.

(** X25: a call with no messages, a dry run, or a live call that lacks a
    credential, never reaches the server: the world and both counters are
    what they were and no delivery line is printed. *)
Theorem send_batch_emails_offline (self : Automation)
    (env_email env_password : pystr) (sender_email sender_password : value)
    (batch_size delay : N) (dry_run : bool) r :
  a_messages self = [] \/ dry_run = true
  \/ truthy (py_or sender_email (VStr env_email)) = false
  \/ truthy (py_or sender_password (VStr env_password)) = false ->
  let run :=
    fst (send_batch_emails World login sendmail quit self env_email
           env_password sender_email sender_password batch_size delay
           dry_run r) in
  world run = world r
  /\ successful_sends run = successful_sends r
  /\ failed_sends run = failed_sends r
  /\ recipients (out run) = recipients (out r).
Proof.
  intros Hcase run.
  assert (H : exists log,
             run = {| world := world r; out := out r ++ log;
                      successful_sends := successful_sends r;
                      failed_sends := failed_sends r |}
             /\ recipients log = []).
  { subst run. unfold send_batch_emails.
    destruct (a_messages self) as [|m0 ms] eqn:Em.
    { by exists [ENoMessages]. }
    rewrite <- Em.
    destruct dry_run.
    - unfold mbind at 1. unfold say at 1. unfold mbind at 1.
      match goal with
      | |- context [dry_run_loop _ ?n _ _ _ _ ?r1] =>
          destruct (dry_run_loop_offline n batch_size delay (a_messages self)
                      0 r1) as (log & Hrun & Hnone);
          destruct (dry_run_loop World n batch_size delay 0 (a_messages self)
                      r1) as [r2 [[]|e]]
      end; cbn [fst] in Hrun; subst r2;
        exists (EDryRun (length (a_messages self)) batch_size delay :: log);
        cbn [fst mret world out successful_sends failed_sends];
        by rewrite <- app_assoc.
    - destruct Hcase as [Hc | [Hc | Hc]]; [congruence | done |].
      assert (negb (truthy (py_or sender_email (VStr env_email)))
              || negb (truthy (py_or sender_password (VStr env_password)))
              = true) as ->.
      { destruct Hc as [-> | ->]; [done|]. apply orb_true_r. }
      by exists [ECredentialsRequired]. }
  destruct H as (log & -> & Hnone).
  cbn [world out successful_sends failed_sends]. split_and!; try done.
  by rewrite recipients_app, Hnone, app_nil_r.
Qed.

(** X26: a live call with credentials stops before any delivery when the
    connection fails: a login or [quit] that raises during validation
    prints the validation failure, a login that raises after validation
    prints the server error; the call returns [False] each time. *)
Theorem send_batch_emails_connection_failures (self : Automation)
    (env_email env_password : pystr) (sender_email sender_password : value)
    (batch_size delay : N) (w0 w1 w2 w3 : World) (e : exn) :
  a_messages self <> [] ->
  truthy (py_or sender_email (VStr env_email)) = true ->
  truthy (py_or sender_password (VStr env_password)) = true ->
  let se := py_or sender_email (VStr env_email) in
  let sp := py_or sender_password (VStr env_password) in
  let call :=
    send_batch_emails World login sendmail quit self env_email env_password
      sender_email sender_password batch_size delay false (start w0) in
  (login w0 se sp = (w1, Raise e) ->
   call = ({| world := w1; out := [EValidationFailed e];
              successful_sends := 0; failed_sends := 0 |}, Ok false))
  /\ (login w0 se sp = (w1, Ok tt) -> quit w1 = (w2, Raise e) ->
      call = ({| world := w2; out := [EValidationFailed e];
                 successful_sends := 0; failed_sends := 0 |}, Ok false))
  /\ (login w0 se sp = (w1, Ok tt) -> quit w1 = (w2, Ok tt) ->
      login w2 se sp = (w3, Raise e) ->
      call = ({| world := w3; out := [EStarting; EServerError e];
                 successful_sends := 0; failed_sends := 0 |}, Ok false)).
Proof.
  intros Hne Hse Hsp se sp call.
  assert (Hcall :
    call
    = (valid <~ validate_email_setup World login quit se sp;;
       if negb valid then mret false
       else
         _ <~ say World EStarting;;
         served <~ try_
                     (_ <~ on_world World (fun w => login w se sp);;
                      _ <~ batch_loop World sendmail se
                             (length (a_messages self)) batch_size delay 0
                             (a_messages self);;
                      _ <~ on_world World quit;;
                      mret true)
                     (fun e => _ <~ say World (EServerError e);; mret false);;
         if negb served then mret false
         else
           counts <~ get_counts World;;
           _ <~ say World (ESummary (fst counts) (snd counts));;
           mret (0 <? fst counts)%nat) (start w0)).
  { subst call. unfold send_batch_emails.
    destruct (a_messages self) as [|m0 ms] eqn:Em; [done|].
    fold se sp. fold se in Hse. fold sp in Hsp. by rewrite Hse, Hsp. }
  split_and!.
  - intros Hval. rewrite Hcall.
    unfold mbind at 1. unfold validate_email_setup, try_ at 1.
    unfold mbind at 1. unfold on_world at 1, start. cbn [world].
    rewrite Hval. by unfold mbind, say, mret.
  - intros Hval Hquit. rewrite Hcall.
    unfold mbind at 1. unfold validate_email_setup, try_ at 1.
    unfold mbind at 1. unfold on_world at 1, start. cbn [world].
    rewrite Hval.
    cbn [world out successful_sends failed_sends].
    unfold mbind at 1. unfold on_world at 1. cbn [world]. rewrite Hquit.
    by unfold mbind, say, mret.
  - intros Hval Hquit Hlogin. rewrite Hcall.
    unfold mbind at 1. unfold validate_email_setup, try_ at 1.
    unfold mbind at 1. unfold on_world at 1, start. cbn [world].
    rewrite Hval.
    cbn [world out successful_sends failed_sends].
    unfold mbind at 1. unfold on_world at 1. cbn [world]. rewrite Hquit.
    cbn [world out successful_sends failed_sends mret negb].
    unfold mbind at 1. unfold say at 1.
    cbn [world out successful_sends failed_sends app].
    unfold mbind at 1. unfold try_ at 1. unfold mbind at 1.
    unfold on_world at 1. cbn [world]. rewrite Hlogin.
    by unfold mbind, say, mret.
Qed.

(** X27: in a live batch with batch size 0 every message is still offered
    to the server, but each one ends in the failure branch: a delivered
    message is counted as sent and then, the modulo raising, as failed
    too. The failure count of the summary is the number of messages,
    whatever was delivered. *)
Theorem send_batch_emails_zero_batch_size (self : Automation)
    (env_email env_password : pystr) (sender_email sender_password : value)
    (delay : N) (w0 w1 w2 w3 : World) :
  a_messages self <> [] ->
  truthy (py_or sender_email (VStr env_email)) = true ->
  truthy (py_or sender_password (VStr env_password)) = true ->
  login w0 (py_or sender_email (VStr env_email))
    (py_or sender_password (VStr env_password)) = (w1, Ok tt) ->
  quit w1 = (w2, Ok tt) ->
  login w2 (py_or sender_email (VStr env_email))
    (py_or sender_password (VStr env_password)) = (w3, Ok tt) ->
  exists new outcomes w4,
    deliveries sendmail (py_or sender_email (VStr env_email))
      (map loaded_pair (a_messages self)) w3 = (outcomes, w4)
    /\ length (filter (fun ev => is_failed ev = true) new)
       = length (a_messages self)
    /\ send_batch_emails World login sendmail quit self env_email
         env_password sender_email sender_password 0 delay false (start w0)
       = match quit w4 with
         | (w5, Ok _) =>
             ({| world := w5;
                 out := EStarting :: new
                        ++ [ESummary (count_ok outcomes)
                                     (length (a_messages self))];
                 successful_sends := count_ok outcomes;
                 failed_sends := length (a_messages self) |},
              Ok (0 <? count_ok outcomes)%nat)
         | (w5, Raise e) =>
             ({| world := w5;
                 out := EStarting :: new ++ [EServerError e];
                 successful_sends := count_ok outcomes;
                 failed_sends := length (a_messages self) |}, Ok false)
         end.
Proof.
  intros Hne Hse Hsp Hval Hquit Hlogin.
  destruct (batch_loop_zero (py_or sender_email (VStr env_email))
              (length (a_messages self)) delay (a_messages self) 0
              {| world := w3; out := [EStarting]; successful_sends := 0;
                 failed_sends := 0 |})
    as (new & Hrun & Hfail).
  cbn [world out successful_sends failed_sends] in Hrun.
  destruct (deliveries sendmail (py_or sender_email (VStr env_email))
              (map loaded_pair (a_messages self)) w3)
    as [outcomes w4] eqn:Ed.
  cbn [fst snd] in Hrun.
  exists new, outcomes, w4. split_and!; try done.
  rewrite (send_batch_emails_live self env_email env_password sender_email
             sender_password 0 delay w0 w1 w2 w3 _ Hne Hse Hsp Hval Hquit
             Hlogin Hrun).
  cbn [world out successful_sends failed_sends Nat.add app].
  by destruct (quit w4) as [w5 [[]|e]].
Qed.

End BatchMore.


Example dry_run_three_log :
  out (fst (send_batch_emails unit accept_login accept_all quit_ok
              three_loaded (lit "") (lit "") VNone VNone 3 1 true (start tt)))
  = [ EDryRun 3 3 1;
      EWouldSend 1 3 (VStr (lit "sam@example.com"));
      EWouldSend 2 3 VNaN;
      EWouldSend 3 3 (VStr (lit "ana@example.com"));
      EWouldPause 1 ].
Proof. reflexivity. Qed.

Lemma send_batch_emails_dry_run_zero_sam_and_ana :
  send_batch_emails unit accept_login accept_all quit_ok sam_and_ana
    (lit "") (lit "") VNone VNone 0 1 true (start tt)
  = ({| world := world (start tt);
        out := out (start tt)
               ++ [EDryRun 2 0 1;
                   EWouldSend 1 2 (VStr (lit "sam@example.com"))];
        successful_sends := successful_sends (start tt);
        failed_sends := failed_sends (start tt) |},
     Raise ZeroDivisionError).
Proof.
  apply (send_batch_emails_dry_run_zero accept_login accept_all quit_ok
           sam_and_ana (lit "") (lit "") VNone VNone 1
           {| lm_email := VStr (lit "sam@example.com");
              lm_message := VStr (lit "to Sam") |}
           [ {| lm_email := VStr (lit "ana@example.com");
                lm_message := VStr (lit "to Ana") |} ] (start tt)).
  reflexivity.
Defined.

Lemma send_batch_emails_offline_no_password :
  let run :=
    fst (send_batch_emails bool login_up drop_on_send quit_if_up sam_and_ana
           (lit "me@example.com") (lit "") VNone VNone 10 2 false
           (start false)) in
  world run = world (start false)
  /\ successful_sends run = successful_sends (start false)
  /\ failed_sends run = failed_sends (start false)
  /\ recipients (out run) = recipients (out (start false)).
Proof.
  apply (send_batch_emails_offline login_up drop_on_send quit_if_up
           sam_and_ana (lit "me@example.com") (lit "") VNone VNone 10 2
           false (start false)).
  right. right. right. reflexivity.
Defined.

Lemma send_batch_emails_connection_failures_refused :
  let se := py_or VNone (VStr (lit "me@example.com")) in
  let sp := py_or VNone (VStr (lit "app-password")) in
  let call :=
    send_batch_emails unit login_refused accept_all quit_ok sam_and_ana
      (lit "me@example.com") (lit "app-password") VNone VNone 10 2 false
      (start tt) in
  (login_refused tt se sp = (tt, Raise SMTPException) ->
   call = ({| world := tt; out := [EValidationFailed SMTPException];
              successful_sends := 0; failed_sends := 0 |}, Ok false))
  /\ (login_refused tt se sp = (tt, Ok tt) ->
      quit_ok tt = (tt, Raise SMTPException) ->
      call = ({| world := tt; out := [EValidationFailed SMTPException];
                 successful_sends := 0; failed_sends := 0 |}, Ok false))
  /\ (login_refused tt se sp = (tt, Ok tt) -> quit_ok tt = (tt, Ok tt) ->
      login_refused tt se sp = (tt, Raise SMTPException) ->
      call = ({| world := tt;
                 out := [EStarting; EServerError SMTPException];
                 successful_sends := 0; failed_sends := 0 |}, Ok false)).
Proof.
  apply (send_batch_emails_connection_failures login_refused accept_all
           quit_ok sam_and_ana (lit "me@example.com") (lit "app-password")
           VNone VNone 10 2 tt tt tt tt SMTPException);
    [discriminate | reflexivity | reflexivity].
Defined.

Example validation_refused_run :
  send_batch_emails unit login_refused accept_all quit_ok sam_and_ana
    (lit "me@example.com") (lit "app-password") VNone VNone 10 2 false
    (start tt)
  = ({| world := tt; out := [EValidationFailed SMTPException];
        successful_sends := 0; failed_sends := 0 |}, Ok false).
Proof. reflexivity. Qed.

Lemma send_batch_emails_zero_batch_size_sam_and_ana :
  exists new outcomes w4,
    deliveries accept_all (py_or VNone (VStr (lit "me@example.com")))
      (map loaded_pair (a_messages sam_and_ana)) tt = (outcomes, w4)
    /\ length (filter (fun ev => is_failed ev = true) new)
       = length (a_messages sam_and_ana)
    /\ send_batch_emails unit accept_login accept_all quit_ok sam_and_ana
         (lit "me@example.com") (lit "app-password") VNone VNone 0 2 false
         (start tt)
       = match quit_ok w4 with
         | (w5, Ok _) =>
             ({| world := w5;
                 out := EStarting :: new
                        ++ [ESummary (count_ok outcomes)
                                     (length (a_messages sam_and_ana))];
                 successful_sends := count_ok outcomes;
                 failed_sends := length (a_messages sam_and_ana) |},
              Ok (0 <? count_ok outcomes)%nat)
         | (w5, Raise e) =>
             ({| world := w5;
                 out := EStarting :: new ++ [EServerError e];
                 successful_sends := count_ok outcomes;
                 failed_sends := length (a_messages sam_and_ana) |},
              Ok false)
         end.
Proof.
  apply (send_batch_emails_zero_batch_size accept_login accept_all quit_ok
           sam_and_ana (lit "me@example.com") (lit "app-password")
           VNone VNone 2 tt tt tt tt);
    [discriminate | reflexivity..].
Defined.

(** Both messages are delivered, and both are reported as failed too. *)
Example zero_batch_size_run :
  send_batch_emails unit accept_login accept_all quit_ok sam_and_ana
    (lit "me@example.com") (lit "app-password") VNone VNone 0 2 false
    (start tt)
  = ({| world := tt;
        out := [ EStarting;
                 ESent 1 2 (VStr (lit "sam@example.com"));
                 EFailed 1 2 (VStr (lit "sam@example.com")) ZeroDivisionError;
                 ESent 2 2 (VStr (lit "ana@example.com"));
                 EFailed 2 2 (VStr (lit "ana@example.com")) ZeroDivisionError;
                 ESummary 2 2 ];
        successful_sends := 2;
        failed_sends := 2 |}, Ok true).
Proof. reflexivity. Qed.

(** * Messages already held *)

(** X28: once [self.messages] holds records, neither the batch call nor
    the table call reads the frame again: whatever rows [self.df] holds,
    both are built from the records held, and the messenger is left as it
    is. *)
Theorem held_messages_are_reused
    (held : list MessageRecord) (rows : list Row) :
  held <> [] ->
  let self := {| df := rows; messages := held |} in
  create_telegram_batch self
  = (self, Ok {| tb_bot_name := lit "EventFollowUpBot";
                 tb_total_messages := length held;
                 tb_messages := map telegram_item held |})
  /\ save_messages_csv self = (self, Ok (map csv_record held)).
Proof.
  intros Hne self.
  assert (Hens : ensure_messages self = (self, Ok tt))
    by by apply ensure_messages_cached.
  split.
  - by rewrite (telegram_batch_after self self Hens).
  - unfold save_messages_csv, mbind. rewrite Hens.
    by unfold get_messages, mret.
Qed.

Lemma held_messages_are_reused_stale :
  let held :=
    [ {| m_email := VStr (lit "old@example.com");
         m_name := VStr (lit "Old Contact");
         m_message := lit "an earlier message";
         m_has_joined_event := VBool true;
         m_job_title := VNone |} ] in
  let self := {| df := [sam; ana]; messages := held |} in
  create_telegram_batch self
  = (self, Ok {| tb_bot_name := lit "EventFollowUpBot";
                 tb_total_messages := length held;
                 tb_messages := map telegram_item held |})
  /\ save_messages_csv self = (self, Ok (map csv_record held)).
Proof.
  apply (held_messages_are_reused
           [ {| m_email := VStr (lit "old@example.com");
                m_name := VStr (lit "Old Contact");
                m_message := lit "an earlier message";
                m_has_joined_event := VBool true;
                m_job_title := VNone |} ] [sam; ana]).
  discriminate.
Defined.

(** * Pauses of a live batch *)

Section Pauses.

Context {World : Type}.
Variable login : World -> value -> value -> World * result unit.
Variable sendmail : World -> value -> value -> value -> World * result unit.
Variable quit : World -> World * result unit.

Implicit Types (r : Run World) (msgs : list LoadedMessage).




End Pauses.


Example pauses_between_messages_run :
  out (fst (send_batch_emails unit accept_login accept_all quit_ok
              sam_and_ana (lit "me@example.com") (lit "app-password")
              VNone VNone 1 2 false (start tt)))
  = [ EStarting;
      ESent 1 2 (VStr (lit "sam@example.com")); EPause 2;
      ESent 2 2 (VStr (lit "ana@example.com"));
      ESummary 2 0 ].
Proof. reflexivity. Qed.

